(** * Policy store adapter of casbin-mesh (server/adapter/adapter.go)

    A shallow embedding of the adapter that persists Casbin policy rules in
    one bucket of an ordered key-value store, and the properties of its
    key encoding, filtered removal, updates and policy loading.

    Conventions of the embedding.
    - A Go [string] or [[]byte] is a [string] of this library: a sequence of
      8-bit characters, compared byte by byte.
    - A Go [int] is a [Z] in the 64-bit range; [+] wraps around ([int_add]).
    - A Go function returning [error] returns [res unit]: [Val tt] is the
      nil error, [Err e] a non-nil error, [Panic v] a run-time panic.
    - The store behind [*BadgerStore] is the list of its records in
      ascending byte order of their keys.  The engine may refuse a write
      for its key or value ([txn_Set_refused]); I/O errors and conflicts
      between concurrent transactions are outside the embedding.
    - The key an iterator item hands out is a slice of the item's own array,
      which the iterator reuses for a later record once it reads beyond its
      prefetch window ([Slice], [Iterator]); RemoveFilteredPolicy keeps such
      slices and reads them after the iteration.
    - A [nil] slice of field values is [None]; an empty slice that is not
      nil is [Some []]. *)

From Stdlib Require Import ZArith NArith Ascii String List Bool Lia.
From stdpp Require Import base option list strings gmap.

(** ** Go strings *)

(** [s[n:]] of Go: [None] stands for the panic of a bound out of range. *)
Fixpoint slice_from (s : string) (n : nat) {struct n} : option string :=
  match n, s with
  | O, _ => Some s
  | S _, EmptyString => None
  | S n', String _ s' => slice_from s' n'
  end.

(** [s[:n]] of Go. *)
Fixpoint slice_to (s : string) (n : nat) {struct n} : option string :=
  match n, s with
  | O, _ => Some EmptyString
  | S _, EmptyString => None
  | S n', String c s' => String c <$> slice_to s' n'
  end.

(** strings.HasPrefix(s, prefix). *)
Fixpoint strings_HasPrefix (s prefix : string) {struct prefix} : bool :=
  match prefix, s with
  | EmptyString, _ => true
  | String _ _, EmptyString => false
  | String p prefix', String c s' =>
      if Ascii.eqb c p then strings_HasPrefix s' prefix' else false
  end.

(** strings.Index(s, substr): the position of the first occurrence. *)
Fixpoint strings_Index (s substr : string) : option nat :=
  if strings_HasPrefix s substr then Some O
  else match s with
       | EmptyString => None
       | String _ s' => S <$> strings_Index s' substr
       end.

(** strings.Contains(s, substr). *)
Definition strings_Contains (s substr : string) : bool :=
  bool_decide (is_Some (strings_Index s substr)).

(** strings.Join(elems, sep). *)
Fixpoint strings_Join (elems : list string) (sep : string) : string :=
  match elems with
  | [] => ""
  | [x] => x
  | x :: xs => x +:+ sep +:+ strings_Join xs sep
  end.

(** The loop of strings.Split (genSplit): cut at the first occurrence of
    [sep], continue behind it.  [fuel] bounds the number of cuts. *)
Fixpoint genSplit (fuel : nat) (s sep : string) : list string :=
  match fuel with
  | O => [s]
  | S fuel' =>
      match strings_Index s sep with
      | None => [s]
      | Some i =>
          match slice_to s i, slice_from s (i + String.length sep) with
          | Some field, Some rest => field :: genSplit fuel' rest sep
          | _, _ => [s]
          end
      end
  end.

(** strings.Split(s, sep) for a separator that is not empty (the program
    splits at "::" and at the newline only): every cut consumes at least
    one byte, so [String.length s] cuts are enough. *)
Definition strings_Split (s sep : string) : list string :=
  genSplit (String.length s) s sep.

(** ** Go integers *)

Definition int_min : Z := - 2 ^ 63.
Definition int_max : Z := 2 ^ 63 - 1.

(** [x + y] on [int]: two's complement wrap-around. *)
Definition int_add (x y : Z) : Z := (x + y + 2 ^ 63) mod 2 ^ 64 - 2 ^ 63.

(** [l[i]] for a signed index: [None] stands for the index-out-of-range panic. *)
Definition go_index {A} (l : list A) (i : Z) : option A :=
  if (i <? 0)%Z then None else l !! Z.to_nat i.

(** ** Errors and results *)

(** errors.New(text). *)
Inductive error : Type :=
| errors_New (text : string).

Inductive res (A : Type) : Type :=
| Val (a : A)
| Err (e : error)
| Panic (v : string).
Arguments Val {A} a.
Arguments Err {A} e.
Arguments Panic {A} v.

Definition InvalidRulesLen : error := errors_New "invalid rule len".

(** ** The ordered key-value engine

    The engine (Badger) is a collaborator outside the repository.  Its
    state is the list of its records in ascending byte order of their
    keys; a transaction reads and writes that list. *)

Abbreviation Store := (list (string * string)).

(** The records are in strictly ascending byte order of their keys. *)
Fixpoint keys_sorted (db : Store) : bool :=
  match db with
  | (k1, _) :: (((k2, _) :: _) as db') => String.ltb k1 k2 && keys_sorted db'
  | _ => true
  end.

(** txn.Get(key). *)
Fixpoint txn_Get (key : string) (db : Store) : option string :=
  match db with
  | [] => None
  | (k, v) :: db' => if String.eqb k key then Some v else txn_Get key db'
  end.

(** txn.Set(key, value): the record takes its place in key order. *)
Fixpoint txn_Set (key value : string) (db : Store) : Store :=
  match db with
  | [] => [(key, value)]
  | (k, v) :: db' =>
      match String.compare key k with
      | Lt => (key, value) :: db
      | Eq => (key, value) :: db'
      | Gt => (k, v) :: txn_Set key value db'
      end
  end.

(** txn.Delete(key): deleting an absent key changes nothing. *)
Fixpoint txn_Delete (key : string) (db : Store) : Store :=
  match db with
  | [] => []
  | (k, v) :: db' =>
      if String.eqb k key then txn_Delete key db' else (k, v) :: txn_Delete key db'
  end.

(** it.Seek(key): the iterator stands at the first record whose key is not
    below [key]; the result is the part of the store from there on. *)
Fixpoint it_Seek (key : string) (db : Store) : Store :=
  match db with
  | [] => []
  | (k, v) :: db' => if String.ltb k key then it_Seek key db' else db
  end.

(** [for it.Seek(prefix); it.ValidForPrefix(prefix); it.Next() { body }],
    started at [cursor].  [acc] is the state the body's closure captures;
    the loop stops at the first record outside the prefix, at the end of the
    store, or when the body fails. *)
Fixpoint it_loop {A : Type} (prefix : string)
    (body : string * string -> A -> res unit * A)
    (cursor : Store) (acc : A) : res unit * A :=
  match cursor with
  | [] => (Val tt, acc)
  | item :: rest =>
      if strings_HasPrefix item.1 prefix then
        match body item acc with
        | (Val _, acc') => it_loop prefix body rest acc'
        | failed => failed
        end
      else (Val tt, acc)
  end.

(** ** The engine's iterator and the memory of its keys

    RemoveFilteredPolicy drives the engine's iterator itself
    (c.txn.NewIterator(badger.DefaultIteratorOptions)) and keeps what
    item.Key() returns: a slice of the item's own key array, not a copy.
    The iterator reads [PrefetchSize] records ahead; an item it has passed
    goes to a waste list, and the next record read from the store is filled
    into the oldest item of that list, over the same array when the key
    fits its capacity (y.SafeCopy: append(a[:0], src...)).  An item is
    reduced to its key, the only part RemoveFilteredPolicy reads. *)

(** badger.DefaultIteratorOptions.PrefetchSize. *)
Definition PrefetchSize : nat := 100.

(** A [[]byte] handed out by the iterator: its array and its length. *)
Record Slice : Type := {
  slice_array : nat;
  slice_len : nat
}.

(** An array of key bytes: the bytes written to it so far, its capacity. *)
Record Array : Type := {
  array_bytes : string;
  array_cap : nat
}.

Abbreviation Memory := (list Array).

Record Iterator : Type := {
  it_source : Store;        (* the records not read from the store yet *)
  it_item : option Slice;   (* the current item *)
  it_data : list Slice;     (* the items read ahead, oldest first *)
  it_waste : list Slice;    (* the items passed, oldest first *)
  it_memory : Memory        (* the arrays of all items *)
}.

(** The bytes a slice shows now: [string(k)]. *)
Definition slice_bytes (memory : Memory) (k : Slice) : string :=
  match memory !! slice_array k with
  | Some arr => default "" (slice_to (array_bytes arr) (slice_len k))
  | None => ""
  end.

(** [src] written at the start of an array: the bytes behind it stay. *)
Definition overwrite (src old : string) : string :=
  src +:+ default "" (slice_from old (String.length src)).

(** ** The transaction wrapper *)

(** Modelled from the spec: [BadgerStore.View] (its file is not among the
    sources).  Spec 4.2: a read-only snapshot transaction; the function is
    invoked and the transaction discarded, the function's error returned
    unmodified.  The store is therefore not part of the result. *)
Definition db_View {A : Type} (fn : Store -> res unit * A) (db : Store) : res unit * A :=
  fn db.

(** Modelled from the spec: [BadgerStore.Update] (its file is not among the
    sources).  Spec 4.2: a read-write transaction, committed when the function
    returns nil and aborted (no write visible) otherwise. *)
Definition db_Update (fn : Store -> res unit * Store) (db : Store) : res unit * Store :=
  match fn db with
  | (Val _, db') => (Val tt, db')
  | (failed, _) => (failed, db)
  end.

(** ** The policy model of the enforcer *)

(** model.Assertion, reduced to the field this adapter touches. *)
Record Assertion : Type := { Policy : list (list string) }.

(** model.Model: section -> policy type -> assertion. *)
Abbreviation Model := (gmap string (gmap string Assertion)).

(** ** What the adapter takes from outside

    The package constant [prefixPolicies] (declared beside the bucket code,
    which is not among the sources) and the library functions of
    encoding/json, encoding/csv, strings and casbin's persist package.
    From the engine: [txn_Set_refused key value] is the error with which
    txn.Set refuses the entry (an empty key, a key or value above the size
    limit), [None] when it accepts it.  From the Go runtime: [growslice
    oldCap newLen] is the capacity of the array that append allocates when
    an array of capacity [oldCap] cannot take [newLen] bytes. *)
Class Externals : Type := {
  prefixPolicies : string;
  json_Marshal : list string -> res string;
  json_Unmarshal : string -> res (list string);
  csv_Read : string -> res (list string);
  strings_TrimSpace : string -> string;
  persist_LoadPolicyLine : string -> Model -> res unit * Model;
  txn_Set_refused : string -> string -> option error;
  growslice : nat -> nat -> nat
}.

(** CasbinRule represents a Casbin rule line. *)
Abbreviation CasbinRule := (list string).

Definition getKey (rule : CasbinRule) : string := strings_Join rule "::".

Definition convertRule (ptype : string) (line : list string) : CasbinRule :=
  [ptype] ++ line.

(** The adapter.  Its field [db] is not a field here: the store is the
    state every method takes and returns. *)
Record adapter : Type := {
  namespace : string;
  builtinPolicy : string
}.

Definition newline : string := String (ascii_of_nat 10) "".

Section Adapter.
Context `{Externals}.

(** ** The bucket abstraction *)

(** Modelled from the spec: [bucket.withPrefix] (the bucket code is not among
    the sources).  Spec 6: the physical key is the fixed prefix, then the
    namespace, then the logical key; RemoveFilteredPolicy builds its scan
    prefix the same way. *)
Definition withPrefix (ns key : string) : string :=
  prefixPolicies +:+ ns +:+ key.

(** Modelled from the spec: [bucket.Put].  Spec 4.1: writes the value under
    namespace+key, a single write; an error if the engine refuses the
    write, and then nothing is written. *)
Definition bucket_Put (ns key value : string) (tx : Store) : res unit * Store :=
  match txn_Set_refused (withPrefix ns key) value with
  | Some e => (Err e, tx)
  | None => (Val tt, txn_Set (withPrefix ns key) value tx)
  end.

(** Modelled from the spec: [bucket.Delete].  Spec 4.1: removes
    namespace+key; deleting an absent key is a no-op success. *)
Definition bucket_Delete (ns key : string) (tx : Store) : res unit * Store :=
  (Val tt, txn_Delete (withPrefix ns key) tx).

(** Modelled from the spec: [bucket.Exist].  Spec 4.1: boolean presence
    check of namespace+key. *)
Definition bucket_Exist (ns key : string) (tx : Store) : bool :=
  bool_decide (is_Some (txn_Get (withPrefix ns key) tx)).

(** Modelled from the spec: [bucket.ForEach].  Spec 4.1: iterates every key
    whose prefix is the namespace, in ascending byte order, invoking
    fn(strippedKey, value); stops at and propagates the first error. *)
Definition bucket_ForEach {A : Type} (ns : string)
    (fn : string -> string -> A -> res unit * A) (tx : Store) (acc : A) : res unit * A :=
  let prefix := prefixPolicies +:+ ns in
  it_loop prefix
    (fun item acc =>
       match slice_from item.1 (String.length prefix) with
       | Some k => fn k item.2 acc
       | None => (Panic "slice bounds out of range", acc)
       end)
    (it_Seek prefix tx) acc.

(** ** The adapter *)

(** loadCsvPolicyLine: one line of the inline seed policy. *)
Definition loadCsvPolicyLine (line : string) (model : Model) : res unit * Model :=
  if String.eqb line "" || strings_HasPrefix line "#" then (Val tt, model)
  else
    match csv_Read line with
    | Err e => (Err e, model)
    | Panic v => (Panic v, model)
    | Val tokens =>
        match tokens with
        | [] => (Panic "index out of range", model)
        | key :: rest =>
            match slice_to key 1 with
            | None => (Panic "slice bounds out of range", model)
            | Some sec =>
                match model !! sec with
                | None => (Panic "nil pointer dereference", model)
                | Some assertions =>
                    match assertions !! key with
                    | None => (Panic "nil pointer dereference", model)
                    | Some assertion =>
                        (Val tt,
                         <[sec := <[key := {| Policy := Policy assertion ++ [rest] |}]> assertions]> model)
                    end
                end
            end
        end
    end.

(** loadPolicy: a stored rule goes to the enforcer's loader as one
    comma-joined line; what the loader returns is dropped. *)
Definition loadPolicy (rule : CasbinRule) (model : Model) : res unit * Model :=
  let lineText := strings_Join rule "," in
  match persist_LoadPolicyLine lineText model with
  | (Panic v, model') => (Panic v, model')
  | (_, model') => (Val tt, model')
  end.

(** The range loop of LoadPolicy over the lines of the seed policy. *)
Fixpoint load_lines (lines : list string) (model : Model) : res unit * Model :=
  match lines with
  | [] => (Val tt, model)
  | line :: lines' =>
      match loadCsvPolicyLine (strings_TrimSpace line) model with
      | (Val _, model') => load_lines lines' model'
      | failed => failed
      end
  end.

Definition LoadPolicy (a : adapter) (model : Model) (db : Store) : res unit * Model :=
  let '(r, model1) :=
    if negb (String.eqb (builtinPolicy a) "")
    then load_lines (strings_Split (builtinPolicy a) newline) model
    else (Val tt, model) in
  match r with
  | Val _ =>
      db_View (fun tx =>
        bucket_ForEach (namespace a)
          (fun k v model =>
             match json_Unmarshal v with
             | Val line => loadPolicy line model
             | Err e => (Err e, model)
             | Panic p => (Panic p, model)
             end) tx model1) db
  | failed => (failed, model1)
  end.

(** SavePolicy is not supported for this adapter. *)
Definition SavePolicy (a : adapter) (model : Model) (db : Store) : res unit * Store :=
  (Err (errors_New "not supported: must use auto-save with this adapter"), db).

(** The body AddPolicy, AddPolicies, UpdatePolicy and UpdatePolicies share:
    serialize the rule, put it under its key. *)
Definition put_rule (a : adapter) (line : CasbinRule) (tx : Store) : res unit * Store :=
  match json_Marshal line with
  | Val bts => bucket_Put (namespace a) (getKey line) bts tx
  | Err e => (Err e, tx)
  | Panic v => (Panic v, tx)
  end.

Definition AddPolicy (a : adapter) (sec ptype : string) (rule : list string)
    (db : Store) : res unit * Store :=
  db_Update (fun tx => put_rule a (convertRule ptype rule) tx) db.

Fixpoint add_rules (a : adapter) (ptype : string) (rules : list (list string))
    (tx : Store) : res unit * Store :=
  match rules with
  | [] => (Val tt, tx)
  | r :: rules' =>
      match put_rule a (convertRule ptype r) tx with
      | (Val _, tx') => add_rules a ptype rules' tx'
      | failed => failed
      end
  end.

Definition AddPolicies (a : adapter) (sec ptype : string) (rules : list (list string))
    (db : Store) : res unit * Store :=
  db_Update (add_rules a ptype rules) db.

(** ** The iterator at work *)

(** y.SafeCopy(a, src) = append(a[:0], src...): in place when the array of
    [a] takes [src], in a new array otherwise; [a] is [None] for the nil
    slice of a new item. *)
Definition SafeCopy (memory : Memory) (a : option Slice) (src : string) : Memory * Slice :=
  let fresh (oldCap : nat) :=
    (memory ++ [{| array_bytes := src; array_cap := growslice oldCap (String.length src) |}],
     {| slice_array := length memory; slice_len := String.length src |}) in
  match a with
  | None => fresh 0
  | Some a =>
      match memory !! slice_array a with
      | None => fresh 0
      | Some arr =>
          if String.length src <=? array_cap arr then
            (<[slice_array a := {| array_bytes := overwrite src (array_bytes arr);
                                   array_cap := array_cap arr |}]> memory,
             {| slice_array := slice_array a; slice_len := String.length src |})
          else fresh (array_cap arr)
      end
  end.

(** txn.NewIterator(opt). *)
Definition txn_NewIterator (tx : Store) : Iterator :=
  {| it_source := tx; it_item := None; it_data := []; it_waste := []; it_memory := [] |}.

(** parseItem, for a store whose records are all live: the next record of
    the store is filled into an item taken from the waste list (a new item
    when that list is empty), which becomes the current item when there is
    none and is queued behind the items read ahead otherwise. *)
Definition parseItem (it : Iterator) : Iterator :=
  match it_source it with
  | [] => it
  | (k, _) :: source =>
      let '(memory, key) := SafeCopy (it_memory it) (head (it_waste it)) k in
      match it_item it with
      | None =>
          {| it_source := source; it_item := Some key; it_data := it_data it;
             it_waste := tail (it_waste it); it_memory := memory |}
      | Some item =>
          {| it_source := source; it_item := Some item; it_data := it_data it ++ [key];
             it_waste := tail (it_waste it); it_memory := memory |}
      end
  end.

(** The loop of prefetch: up to [count] records are read ahead. *)
Fixpoint prefetch_items (count : nat) (it : Iterator) : Iterator :=
  match count with
  | O => it
  | S count' =>
      match it_source it with
      | [] => it
      | _ :: _ => prefetch_items count' (parseItem it)
      end
  end.

Definition prefetch (it : Iterator) : Iterator :=
  prefetch_items PrefetchSize
    {| it_source := it_source it; it_item := None; it_data := it_data it;
       it_waste := it_waste it; it_memory := it_memory it |}.

(** it.Seek(key) on the iterator of transaction [tx]: the items read ahead
    go to the waste list, the store is positioned at the first record whose
    key is not below [key], and the iterator reads ahead from there. *)
Definition iter_Seek (key : string) (tx : Store) (it : Iterator) : Iterator :=
  prefetch
    {| it_source := it_Seek key tx; it_item := it_item it; it_data := [];
       it_waste := it_waste it ++ it_data it; it_memory := it_memory it |}.

(** it.Next(): the current item goes to the waste list, the oldest item read
    ahead becomes current, and one more record is read from the store. *)
Definition iter_Next (it : Iterator) : Iterator :=
  match it_item it with
  | None => it
  | Some item =>
      parseItem
        {| it_source := it_source it; it_item := head (it_data it);
           it_data := tail (it_data it); it_waste := it_waste it ++ [item];
           it_memory := it_memory it |}
  end.

(** [for it.Seek(prefix); it.ValidForPrefix(prefix); it.Next() { body }] from
    the iterator as Seek left it.  The body receives item.Key() and the
    bytes it shows at that moment; [acc] is the state its closure captures.
    Every turn passes one item, so [fuel] above the number of records of
    the store is never used up ([iter_loop_fuel]). *)
Fixpoint iter_loop {A : Type} (fuel : nat) (prefix : string)
    (body : Slice -> string -> A -> res unit * A)
    (it : Iterator) (acc : A) : res unit * (A * Memory) :=
  match fuel with
  | O => (Val tt, (acc, it_memory it))
  | S fuel' =>
      match it_item it with
      | None => (Val tt, (acc, it_memory it))
      | Some k =>
          let found := slice_bytes (it_memory it) k in
          if strings_HasPrefix found prefix then
            match body k found acc with
            | (Val _, acc') => iter_loop fuel' prefix body (iter_Next it) acc'
            | (failed, acc') => (failed, (acc', it_memory it))
            end
          else (Val tt, (acc, it_memory it))
      end
  end.

(** The body of the contains scan of RemoveFilteredPolicy for one record:
    [k] is item.Key(), [found] the bytes it shows. *)
Definition scan_body (a : adapter) (fieldIndex : Z) (fieldValues : list string)
    (keyStr : string) (k : Slice) (found : string) (matched : list Slice)
    : res unit * list Slice :=
  if strings_Contains found keyStr then
    match slice_from found (String.length (namespace a)) with
    | None => (Panic "slice bounds out of range", matched)
    | Some suffix =>
        let values := strings_Split suffix "::" in
        if (int_add fieldIndex 1 <? Z.of_nat (length values))%Z then
          match go_index values (int_add fieldIndex 1), go_index fieldValues 0 with
          | Some value, Some fieldValue =>
              if String.eqb value fieldValue
              then (Val tt, matched ++ [k])
              else (Val tt, matched)
          | _, _ => (Panic "index out of range", matched)
          end
        else (Val tt, matched)
    end
  else (Val tt, matched).

(** The read phase of RemoveFilteredPolicy.  [matched] collects the slices
    item.Key() returned; the result is the keys the write phase will find
    in them, that is their bytes in the memory the iterator leaves behind. *)
Definition collect_matched (a : adapter) (ptype : string) (fieldIndex : Z)
    (fieldValues : list string) (db : Store) : res unit * list string :=
  let matched : list Slice := [] in
  let key := strings_Join ([ptype] ++ fieldValues) "::" in
  let '(r, (matched, memory)) :=
    if (fieldIndex =? 0)%Z then
      db_View (fun tx =>
        let prefix := withPrefix (namespace a) key in
        let it := txn_NewIterator tx in
        iter_loop (S (length tx)) prefix
          (fun k _ matched => (Val tt, matched ++ [k]))
          (iter_Seek prefix tx it) matched) db
    else if (fieldIndex >? -1)%Z then
      db_View (fun tx =>
        let it := txn_NewIterator tx in
        let prefix := prefixPolicies +:+ namespace a +:+ ptype in
        let keyStr := strings_Join fieldValues "::" in
        iter_loop (S (length tx)) prefix
          (scan_body a fieldIndex fieldValues keyStr)
          (iter_Seek prefix tx it) matched) db
    else (Val tt, (matched, [])) in
  (r, slice_bytes memory <$> matched).

(** The write phase of RemoveFilteredPolicy: delete the collected keys. *)
Fixpoint delete_matched (matched : list string) (tx : Store) : res unit * Store :=
  match matched with
  | [] => (Val tt, tx)
  | k :: matched' => delete_matched matched' (txn_Delete k tx)
  end.

Definition RemoveFilteredPolicy (a : adapter) (sec ptype : string) (fieldIndex : Z)
    (fieldValues : option (list string)) (db : Store) : res unit * Store :=
  match fieldValues with
  | None => (Err (errors_New "empty filed values"), db)
  | Some fieldValues =>
      match collect_matched a ptype fieldIndex fieldValues db with
      | (Val _, matched) => db_Update (delete_matched matched) db
      | (Err e, _) => (Err e, db)
      | (Panic v, _) => (Panic v, db)
      end
  end.

(** RemovePolicy removes a policy line that matches key. *)
Definition RemovePolicy (a : adapter) (sec ptype : string) (line : list string)
    (db : Store) : res unit * Store :=
  db_Update (fun tx =>
    let rule := convertRule ptype line in
    bucket_Delete (namespace a) (getKey rule) tx) db.

(** UpdateFilteredPolicies: [panic("implement")]. *)
Definition UpdateFilteredPolicies (a : adapter) (sec ptype : string)
    (newPolicies : list (list string)) (fieldIndex : Z)
    (fieldValues : option (list string)) (db : Store)
    : res (list (list string)) * Store :=
  (Panic "implement", db).

(** The body UpdatePolicy and UpdatePolicies share for one pair of rules. *)
Definition update_rule (a : adapter) (ptype : string) (oldRule newPolicy : list string)
    (tx : Store) : res unit * Store :=
  let rule := convertRule ptype oldRule in
  if bucket_Exist (namespace a) (getKey rule) tx then
    match bucket_Delete (namespace a) (getKey rule) tx with
    | (Val _, tx1) => put_rule a (convertRule ptype newPolicy) tx1
    | failed => failed
    end
  else (Val tt, tx).

(** UpdatePolicy updates a policy rule from storage. *)
Definition UpdatePolicy (a : adapter) (sec ptype : string) (oldRule newPolicy : list string)
    (db : Store) : res unit * Store :=
  db_Update (update_rule a ptype oldRule newPolicy) db.

(** The loop of UpdatePolicies over [i = 0 .. len(oldRules) - 1]; it runs
    only when both lists have the same length. *)
Fixpoint update_rules (a : adapter) (ptype : string) (oldRules newRules : list (list string))
    (tx : Store) : res unit * Store :=
  match oldRules, newRules with
  | o :: oldRules', n :: newRules' =>
      match update_rule a ptype o n tx with
      | (Val _, tx') => update_rules a ptype oldRules' newRules' tx'
      | failed => failed
      end
  | [], _ => (Val tt, tx)
  | _ :: _, [] => (Panic "index out of range", tx)
  end.

(** UpdatePolicies updates some policy rules to storage. *)
Definition UpdatePolicies (a : adapter) (sec ptype : string)
    (oldRules newRules : list (list string)) (db : Store) : res unit * Store :=
  db_Update (fun tx =>
    if negb (length oldRules =? length newRules)
    then (Err InvalidRulesLen, tx)
    else update_rules a ptype oldRules newRules tx) db.

Fixpoint remove_rules (a : adapter) (ptype : string) (rules : list (list string))
    (tx : Store) : res unit * Store :=
  match rules with
  | [] => (Val tt, tx)
  | r :: rules' =>
      match bucket_Delete (namespace a) (getKey (convertRule ptype r)) tx with
      | (Val _, tx') => remove_rules a ptype rules' tx'
      | failed => failed
      end
  end.

(** RemovePolicies removes multiple policies. *)
Definition RemovePolicies (a : adapter) (sec ptype : string) (rules : list (list string))
    (db : Store) : res unit * Store :=
  db_Update (remove_rules a ptype rules) db.

End Adapter.

(** ** Notions the properties are stated with *)

(** A component of a rule that the key encoding keeps apart from its
    neighbours: it holds no separator "::" and does not end in a colon. *)
Fixpoint field_clean (f : string) : bool :=
  match f with
  | EmptyString => true
  | String c f' =>
      match f' with
      | EmptyString => negb (Ascii.eqb c ":")
      | String c' _ => negb (Ascii.eqb c ":" && Ascii.eqb c' ":") && field_clean f'
      end
  end.

(** [fieldValues] are the leading fields of [line]. *)
Fixpoint leading_fields (fieldValues line : list string) : bool :=
  match fieldValues, line with
  | [] , _ => true
  | _ :: _, [] => false
  | fv :: fieldValues', f :: line' => String.eqb f fv && leading_fields fieldValues' line'
  end.

(** The records the prefix loop visits from [cursor] on. *)
Fixpoint prefix_run (prefix : string) (cursor : Store) : Store :=
  match cursor with
  | [] => []
  | item :: rest =>
      if strings_HasPrefix item.1 prefix then item :: prefix_run prefix rest else []
  end.

(** [k] lies above every key that starts with [prefix]. *)
Fixpoint above_prefix (prefix k : string) : bool :=
  match prefix, k with
  | String p prefix', String c k' =>
      match Ascii.compare c p with
      | Gt => true
      | Eq => above_prefix prefix' k'
      | Lt => false
      end
  | _, _ => false
  end.

(** The records of a store whose key starts with [prefix]. *)
Definition records_with_prefix (prefix : string) (db : Store) : Store :=
  List.filter (fun item => strings_HasPrefix item.1 prefix) db.

(** The slice [k] shows [key], in an array that holds nothing else. *)
Definition shows (memory : Memory) (k : Slice) (key : string) : Prop :=
  exists arr,
    memory !! slice_array k = Some arr /\ array_bytes arr = key /\
    slice_len k = String.length key.

(** The items an iterator has still to pass, the current one included. *)
Definition remaining (it : Iterator) : nat :=
  length (option_list (it_item it)) + length (it_data it) + length (it_source it).

(** The policy list the model holds for the policy type [key]; its section
    is the first byte of [key]. *)
Definition policy_of (model : Model) (key : string) : option (list (list string)) :=
  sec ← slice_to key 1; assertions ← model !! sec; assertion ← assertions !! key;
  Some (Policy assertion).

(** The rules a list of token lines contributes to the policy type [key],
    in order and with repetitions. *)
Definition rules_of (key : string) (lines : list (list string)) : list (list string) :=
  omap (fun tokens =>
          match tokens with
          | k :: rest => if String.eqb k key then Some rest else None
          | [] => None
          end) lines.

(** [model'] is [model] with every policy list extended by the rules that
    [lines] hold for it. *)
Definition extends_by (model model' : Model) (lines : list (list string)) : Prop :=
  forall key pol,
    policy_of model key = Some pol ->
    policy_of model' key = Some (pol ++ rules_of key lines).

Section Notions.
Context `{Externals}.

(** What the contains scan reads as component 0 of a key of policy type
    [ptype]: the key without its first [len(namespace)] bytes starts with
    the last bytes of prefix and namespace, then the policy type. *)
Definition ptype_component (ns ptype : string) : string :=
  default "" (slice_from (prefixPolicies +:+ ns +:+ ptype) (String.length ns)).

(** The test of the contains scan on one key, as a boolean. *)
Definition scan_match (a : adapter) (fieldIndex : Z) (fieldValue keyStr k : string) : bool :=
  strings_Contains k keyStr &&
  match slice_from k (String.length (namespace a)) with
  | Some suffix =>
      bool_decide (go_index (strings_Split suffix "::") (fieldIndex + 1) = Some fieldValue)
  | None => false
  end.

(** The lines of the seed policy that are neither blank nor comments. *)
Definition seed_lines (a : adapter) : list string :=
  if String.eqb (builtinPolicy a) "" then []
  else List.filter (fun line => negb (String.eqb line "" || strings_HasPrefix line "#"))
         (map strings_TrimSpace (strings_Split (builtinPolicy a) newline)).



(** The rule serializes and the engine accepts the write under its key. *)
Definition writable (a : adapter) (line : CasbinRule) : Prop :=
  exists bts,
    json_Marshal line = Val bts /\
    txn_Set_refused (withPrefix (namespace a) (getKey line)) bts = None.

(** The model has an assertion for the policy type the tokens name. *)
Definition loadable (model : Model) (tokens : list string) : Prop :=
  match tokens with
  | key :: _ => is_Some (policy_of model key)
  | [] => False
  end.

End Notions.

(** ** A concrete environment

    Stand-ins for the library functions, used to run the adapter on examples:
    ASCII white space for strings.TrimSpace, a plain comma split that drops
    leading blanks for the CSV reader, a comma-joined line for the JSON
    codec, the seed-line loader for persist.LoadPolicyLine, the engine's
    limits on a key for txn.Set, and a capacity rounded up to a multiple of
    eight for the runtime's append.  The theorems hold for every
    environment. *)

Fixpoint trim_left (s : string) : string :=
  match s with
  | String c s' => if Ascii.is_space c then trim_left s' else s
  | EmptyString => EmptyString
  end.

Fixpoint trim_right (s : string) : string :=
  match s with
  | EmptyString => EmptyString
  | String c s' =>
      let t := trim_right s' in
      if Ascii.is_space c && String.eqb t "" then EmptyString else String c t
  end.

(** The engine's checks of a key: not empty, at most 65000 bytes. *)
Definition key_refused (key value : string) : option error :=
  if String.eqb key "" then Some (errors_New "Key cannot be empty")
  else if (65000 <? N.of_nat (String.length key))%N
       then Some (errors_New "Key exceeded 65000 limit")
       else None.

Definition rounded_cap (oldCap newLen : nat) : nat :=
  8 * ((Nat.max newLen (2 * oldCap) + 7) / 8).

Definition sample_base : Externals := {|
  prefixPolicies := "policy/";
  json_Marshal := fun rule => Val (strings_Join rule ",");
  json_Unmarshal := fun v => Val (strings_Split v ",");
  csv_Read := fun line => Val (map trim_left (strings_Split line ","));
  strings_TrimSpace := fun s => trim_left (trim_right s);
  persist_LoadPolicyLine := fun _ model => (Val tt, model);
  txn_Set_refused := key_refused;
  growslice := rounded_cap
|}.

Definition sample : Externals := {|
  prefixPolicies := @prefixPolicies sample_base;
  json_Marshal := @json_Marshal sample_base;
  json_Unmarshal := @json_Unmarshal sample_base;
  csv_Read := @csv_Read sample_base;
  strings_TrimSpace := @strings_TrimSpace sample_base;
  persist_LoadPolicyLine := @loadCsvPolicyLine sample_base;
  txn_Set_refused := key_refused;
  growslice := rounded_cap
|}.

Definition sample_adapter : adapter :=
  {| namespace := "rules"; builtinPolicy := "" |}.

(** The store after AddPolicies(sec, ptype, rules) on an empty store. *)
Definition store_of (ptype : string) (rules : list (list string)) : Store :=
  (@AddPolicies sample sample_adapter "p" ptype rules []).2.

(** Three rules of policy type p; two subjects share a prefix. *)
Definition store_subjects : Store :=
  store_of "p" [["subj-a"; "data1"; "read"]; ["subj-ab"; "data1"; "read"];
                ["subj-b"; "data2"; "write"]].

(** Rules of the policy types p and p2 in one bucket. *)
Definition store_two_types : Store :=
  (@AddPolicies sample sample_adapter "p" "p2" [["alice"; "data1"]]
     (store_of "p" [["bob"; "data1"]; ["carol"; "data2"]])).2.

(** A rule with a field that holds the separator. *)
Definition store_separator : Store := store_of "p" [["a::b"; "c"]].

(** The rules of the scenarios of the specification. *)
Definition store_scenario : Store :=
  store_of "p" [["alice"; "data1"; "read"]; ["bob"; "data2"; "write"]].

(** An adapter with a seed policy: two rules, a comment and a blank line. *)
Definition seeded_adapter : adapter :=
  {| namespace := "rules";
     builtinPolicy :=
       "p, alice, data1, read" +:+ newline +:+ "# seed policy" +:+ newline +:+
       "  " +:+ newline +:+ "p, carol, data3, read" |}.

(** A model with an empty policy list for the policy type p. *)
Definition empty_model : Model := {[ "p" := {[ "p" := {| Policy := [] |} ]} ]}.

(** A second environment whose readers can fail: the CSV reader rejects a
    line that holds a double quote, the JSON decoder rejects an empty value. *)
Definition double_quote : string := String (ascii_of_nat 34) "".

Definition strict_base : Externals := {|
  prefixPolicies := "policy/";
  json_Marshal := fun rule => Val (strings_Join rule ",");
  json_Unmarshal := fun v =>
    if String.eqb v "" then Err (errors_New "unexpected end of JSON input")
    else Val (strings_Split v ",");
  csv_Read := fun line =>
    if strings_Contains line double_quote then Err (errors_New "bare quote in field")
    else Val (map trim_left (strings_Split line ","));
  strings_TrimSpace := fun s => trim_left (trim_right s);
  persist_LoadPolicyLine := fun _ model => (Val tt, model);
  txn_Set_refused := key_refused;
  growslice := rounded_cap
|}.

Definition strict : Externals := {|
  prefixPolicies := @prefixPolicies strict_base;
  json_Marshal := @json_Marshal strict_base;
  json_Unmarshal := @json_Unmarshal strict_base;
  csv_Read := @csv_Read strict_base;
  strings_TrimSpace := @strings_TrimSpace strict_base;
  persist_LoadPolicyLine := @loadCsvPolicyLine strict_base;
  txn_Set_refused := key_refused;
  growslice := rounded_cap
|}.






(** A field of [n] bytes. *)
Fixpoint filler (n : nat) : string :=
  match n with
  | O => ""
  | S n' => String "a" (filler n')
  end.

(** The subjects u000, u001, ... *)
Definition user (n : nat) : string :=
  let digit d := ascii_of_nat (48 + d mod 10) in
  String "u" (String (digit (n / 100)) (String (digit (n / 10)) (String (digit n) ""))).

(** The rules p, u000 to p, u<n-1>: one rule per subject. *)
Definition store_users (n : nat) : Store :=
  store_of "p" (map (fun i => [user i]) (seq 0 n)).

(** The rules p, u<i>, read for i < n, but write for u000. *)
Definition store_actions (n : nat) : Store :=
  store_of "p" (map (fun i => [user i; if i =? 0 then "write" else "read."]) (seq 0 n)).

Definition broken_seed_adapter : adapter :=
  {| namespace := "rules";
     builtinPolicy :=
       "p, alice, data1, read" +:+ newline +:+
       "p, bob, " +:+ double_quote +:+ "data2, write" +:+ newline +:+
       "p, carol, data3, read" |}.

(** The scenario store with one more record, whose value is empty. *)
Definition store_broken_value : Store :=
  txn_Set "policy/rulesp::bob::data2::zzz" "" store_scenario.

(** * Properties *)

(** ** Strings *)

Lemma append_cons c s t : String c s +:+ t = String c (s +:+ t).
Proof. reflexivity. Qed.

Lemma append_nil_r s : s +:+ "" = s.
Proof. induction s as [|c s IH]; [done|]. by rewrite append_cons, IH. Qed.

Lemma append_assoc s t u : (s +:+ t) +:+ u = s +:+ (t +:+ u).
Proof. induction s as [|c s IH]; [done|]. by rewrite !append_cons, IH. Qed.

Lemma length_append s t : String.length (s +:+ t) = String.length s + String.length t.
Proof. induction s as [|c s IH]; [done|]. rewrite append_cons. simpl. by rewrite IH. Qed.

Lemma HasPrefix_nil s : strings_HasPrefix s "" = true.
Proof. by destruct s. Qed.

Lemma HasPrefix_cons c s p q :
  strings_HasPrefix (String c s) (String p q) = Ascii.eqb c p && strings_HasPrefix s q.
Proof. simpl. by destruct (Ascii.eqb c p). Qed.

Lemma HasPrefix_spec s p : strings_HasPrefix s p = true <-> exists r, s = p +:+ r.
Proof.
  revert s. induction p as [|c p IH]; intros s.
  - rewrite HasPrefix_nil. split; [by exists s | done].
  - destruct s as [|d s]; simpl.
    + split; [done | by intros [r Hr]].
    + destruct (Ascii.eqb_spec d c) as [->|Hne].
      * rewrite IH. split; intros [r Hr]; exists r.
        -- by rewrite append_cons, Hr.
        -- rewrite append_cons in Hr. by injection Hr.
      * split; [done|]. intros [r Hr]. rewrite append_cons in Hr. by injection Hr.
Qed.

Lemma HasPrefix_app p s : strings_HasPrefix (p +:+ s) p = true.
Proof. apply HasPrefix_spec. by exists s. Qed.

Lemma HasPrefix_app_app p s q :
  strings_HasPrefix (p +:+ s) (p +:+ q) = strings_HasPrefix s q.
Proof.
  induction p as [|c p IH]; [done|].
  rewrite !append_cons, HasPrefix_cons, IH. by rewrite Ascii.eqb_refl.
Qed.

Lemma HasPrefix_app_l s p q :
  strings_HasPrefix s (p +:+ q) = true -> strings_HasPrefix s p = true.
Proof.
  rewrite !HasPrefix_spec. intros [r ->]. exists (q +:+ r). by rewrite append_assoc.
Qed.

Lemma HasPrefix_length s p :
  strings_HasPrefix s p = true -> String.length p <= String.length s.
Proof. rewrite HasPrefix_spec. intros [r ->]. rewrite length_append. lia. Qed.

Lemma slice_to_app s t : slice_to (s +:+ t) (String.length s) = Some s.
Proof.
  induction s as [|c s IH]; [done|]. rewrite append_cons. simpl. by rewrite IH.
Qed.

Lemma slice_from_app s t : slice_from (s +:+ t) (String.length s) = Some t.
Proof. induction s as [|c s IH]; [done|]. by rewrite append_cons. Qed.

Lemma slice_from_app_l s t n u :
  slice_from s n = Some u -> slice_from (s +:+ t) n = Some (u +:+ t).
Proof.
  revert s. induction n as [|n IH]; intros s; simpl.
  - by intros [= ->].
  - destruct s as [|c s]; [done|]. rewrite append_cons. apply IH.
Qed.

Lemma slice_from_is_Some s n : n <= String.length s -> is_Some (slice_from s n).
Proof.
  revert s. induction n as [|n IH]; intros s Hn; [by eexists|].
  destruct s as [|c s]; simpl in *; [lia|]. apply IH. lia.
Qed.

(** A clean component holds no separator. *)
Lemma Index_clean_None f : field_clean f = true -> strings_Index f "::" = None.
Proof.
  induction f as [|c f IH]; [done|]. intros Hc.
  destruct f as [|c' f].
  - simpl in *. by destruct (Ascii.eqb c ":").
  - change (field_clean (String c (String c' f)))
      with (negb (Ascii.eqb c ":" && Ascii.eqb c' ":") && field_clean (String c' f)) in Hc.
    apply andb_true_iff in Hc as [Hcc Hf].
    change (strings_Index (String c (String c' f)) "::")
      with (if strings_HasPrefix (String c (String c' f)) "::" then Some 0
            else S <$> strings_Index (String c' f) "::").
    rewrite IH by done.
    rewrite !HasPrefix_cons, HasPrefix_nil, andb_true_r.
    apply negb_true_iff in Hcc. by rewrite Hcc.
Qed.

(** Behind a clean component, the first separator is the one that follows
    it. *)
Lemma Index_clean f r :
  field_clean f = true -> strings_Index (f +:+ "::" +:+ r) "::" = Some (String.length f).
Proof.
  induction f as [|c f IH]; [reflexivity|]. intros Hc.
  rewrite append_cons.
  change (strings_Index (String c (f +:+ "::" +:+ r)) "::")
    with (if strings_HasPrefix (String c (f +:+ "::" +:+ r)) "::" then Some 0
          else S <$> strings_Index (f +:+ "::" +:+ r) "::").
  destruct f as [|c' f].
  - simpl in Hc. apply negb_true_iff in Hc.
    change ("" +:+ "::" +:+ r) with (String ":" (String ":" r)).
    rewrite HasPrefix_cons, Hc. simpl. done.
  - change (field_clean (String c (String c' f)))
      with (negb (Ascii.eqb c ":" && Ascii.eqb c' ":") && field_clean (String c' f)) in Hc.
    apply andb_true_iff in Hc as [Hcc Hf].
    rewrite IH by done. rewrite append_cons, !HasPrefix_cons, HasPrefix_nil, andb_true_r.
    apply negb_true_iff in Hcc. by rewrite Hcc.
Qed.

Lemma Join_cons_cons x y ys sep :
  strings_Join (x :: y :: ys) sep = x +:+ sep +:+ strings_Join (y :: ys) sep.
Proof. reflexivity. Qed.

Lemma Join_length f fs : length fs <= String.length (strings_Join (f :: fs) "::").
Proof.
  revert f. induction fs as [|g fs IH]; intros f; [simpl; lia|].
  rewrite Join_cons_cons, !length_append. specialize (IH g). simpl in *. lia.
Qed.

Lemma genSplit_Join fs : forall f fuel,
  forallb field_clean (f :: fs) = true -> length fs <= fuel ->
  genSplit fuel (strings_Join (f :: fs) "::") "::" = f :: fs.
Proof.
  induction fs as [|g fs IH]; intros f fuel Hc Hfuel.
  - simpl in Hc. apply andb_true_iff in Hc as [Hf _].
    destruct fuel as [|fuel]; [done|]. simpl. by rewrite Index_clean_None.
  - destruct fuel as [|fuel]; [simpl in Hfuel; lia|].
    change (forallb field_clean (f :: g :: fs))
      with (field_clean f && forallb field_clean (g :: fs)) in Hc.
    apply andb_true_iff in Hc as [Hf Hc].
    rewrite Join_cons_cons.
    change (genSplit (S fuel) ?s ?sep) with
      (match strings_Index s sep with
       | None => [s]
       | Some i =>
           match slice_to s i, slice_from s (i + String.length sep) with
           | Some field, Some rest => field :: genSplit fuel rest sep
           | _, _ => [s]
           end
       end).
    rewrite Index_clean by done. rewrite slice_to_app.
    rewrite <- append_assoc.
    replace (String.length f + String.length "::") with (String.length (f +:+ "::"))
      by (by rewrite length_append).
    rewrite slice_from_app. f_equal. apply IH; [done|]. simpl in Hfuel. lia.
Qed.

(** Splitting a key gives back the components it was joined from, when they
    are clean. *)
Lemma Split_Join f fs :
  forallb field_clean (f :: fs) = true ->
  strings_Split (strings_Join (f :: fs) "::") "::" = f :: fs.
Proof. intros Hc. apply genSplit_Join; [done|]. apply Join_length. Qed.

(** The key of a rule starts with the key of its leading fields. *)
Lemma Join_HasPrefix_app sep fvs : forall p rest,
  strings_HasPrefix (strings_Join (p :: fvs ++ rest) sep) (strings_Join (p :: fvs) sep) = true.
Proof.
  induction fvs as [|f fvs IH]; intros p rest.
  - destruct rest as [|r rest]; simpl app.
    + apply HasPrefix_spec. exists "". by rewrite append_nil_r.
    + rewrite Join_cons_cons. apply HasPrefix_app.
  - change ((f :: fvs) ++ rest) with (f :: fvs ++ rest).
    by rewrite !Join_cons_cons, !HasPrefix_app_app.
Qed.

(** ** Byte order and prefixes *)

Lemma Ascii_compare_refl c : Ascii.compare c c = Eq.
Proof. apply N.compare_refl. Qed.

Lemma Ascii_compare_Lt_neq c a : Ascii.compare c a = Lt -> Ascii.eqb c a = false.
Proof.
  intros Hlt. destruct (Ascii.eqb_spec c a) as [->|]; [|done].
  by rewrite Ascii_compare_refl in Hlt.
Qed.

Lemma Ascii_compare_Gt_neq c a : Ascii.compare c a = Gt -> Ascii.eqb c a = false.
Proof.
  intros Hgt. destruct (Ascii.eqb_spec c a) as [->|]; [|done].
  by rewrite Ascii_compare_refl in Hgt.
Qed.

Lemma Ascii_compare_Gt_Lt c1 c2 a :
  Ascii.compare c1 a = Gt -> Ascii.compare c1 c2 = Lt -> Ascii.compare c2 a = Gt.
Proof.
  unfold Ascii.compare. rewrite !N.compare_gt_iff, N.compare_lt_iff. lia.
Qed.

Lemma String_ltb_cons c k a p :
  String.ltb (String c k) (String a p) =
  match Ascii.compare c a with Eq => String.ltb k p | Lt => true | Gt => false end.
Proof. unfold String.ltb. simpl. by destruct (Ascii.compare c a). Qed.

Lemma String_ltb_trans k1 k2 k3 :
  String.ltb k1 k2 = true -> String.ltb k2 k3 = true -> String.ltb k1 k3 = true.
Proof.
  revert k2 k3. induction k1 as [|c1 k1 IH]; intros [|c2 k2] [|c3 k3]; try done.
  rewrite !String_ltb_cons.
  destruct (Ascii.compare c1 c2) eqn:H12; [| |done].
  - apply Ascii.compare_eq_iff in H12 as ->.
    destruct (Ascii.compare c2 c3); [apply IH|done..].
  - intros _. destruct (Ascii.compare c2 c3) eqn:H23; [| |done].
    + apply Ascii.compare_eq_iff in H23 as <-. by rewrite H12.
    + intros _. assert (Ascii.compare c1 c3 = Lt) as ->; [|done].
      revert H12 H23. unfold Ascii.compare. rewrite !N.compare_lt_iff. lia.
Qed.

(** A key below the prefix does not start with it. *)
Lemma ltb_not_HasPrefix k p : String.ltb k p = true -> strings_HasPrefix k p = false.
Proof.
  revert k. induction p as [|a p IH]; intros [|c k]; try done.
  rewrite String_ltb_cons, HasPrefix_cons.
  destruct (Ascii.compare c a) eqn:Hca; [| |done].
  - intros Hlt. by rewrite IH, andb_false_r.
  - intros _. by rewrite Ascii_compare_Lt_neq.
Qed.

(** A key that is neither below the prefix nor starts with it lies above
    every key that starts with it. *)
Lemma not_below_not_prefixed k p :
  String.ltb k p = false -> strings_HasPrefix k p = false -> above_prefix p k = true.
Proof.
  revert k. induction p as [|a p IH]; intros [|c k]; try done.
  rewrite String_ltb_cons, HasPrefix_cons. simpl.
  destruct (Ascii.compare c a) eqn:Hca; [|done..].
  apply Ascii.compare_eq_iff in Hca as ->. rewrite Ascii.eqb_refl. apply IH.
Qed.

Lemma above_not_HasPrefix k p : above_prefix p k = true -> strings_HasPrefix k p = false.
Proof.
  revert k. induction p as [|a p IH]; intros [|c k]; try done.
  rewrite HasPrefix_cons. simpl.
  destruct (Ascii.compare c a) eqn:Hca; [|done|].
  - intros Hab. by rewrite IH, andb_false_r.
  - intros _. by rewrite Ascii_compare_Gt_neq.
Qed.

Lemma above_mono p k1 k2 :
  above_prefix p k1 = true -> String.ltb k1 k2 = true -> above_prefix p k2 = true.
Proof.
  revert k1 k2. induction p as [|a p IH]; intros [|c1 k1] [|c2 k2]; try done.
  rewrite String_ltb_cons. simpl.
  destruct (Ascii.compare c1 a) eqn:H1a; [|done|].
  - apply Ascii.compare_eq_iff in H1a as ->.
    destruct (Ascii.compare a c2) eqn:Ha2; [| |done].
    + apply Ascii.compare_eq_iff in Ha2 as <-. rewrite Ascii_compare_refl. apply IH.
    + intros _ _. rewrite Ascii.compare_antisym, Ha2. done.
  - intros _. destruct (Ascii.compare c1 c2) eqn:H12; [| |done].
    + apply Ascii.compare_eq_iff in H12 as <-. by rewrite H1a.
    + intros _. by rewrite (Ascii_compare_Gt_Lt c1 c2 a).
Qed.

(** ** The engine *)

Lemma keys_sorted_tail item db : keys_sorted (item :: db) = true -> keys_sorted db = true.
Proof.
  destruct item as [k v], db as [|[k' v'] db]; [done|].
  simpl. by intros [_ ?]%andb_true_iff.
Qed.

Lemma keys_sorted_head k v k' v' db :
  keys_sorted ((k, v) :: (k', v') :: db) = true -> String.ltb k k' = true.
Proof. simpl. by intros [? _]%andb_true_iff. Qed.

(** Behind a key above the prefix, no key of a sorted store starts with it. *)
Lemma above_no_records p k v db :
  keys_sorted ((k, v) :: db) = true -> above_prefix p k = true ->
  records_with_prefix p db = [].
Proof.
  revert k v. induction db as [|[k' v'] db IH]; intros k v Hs Hab; [done|].
  pose proof (above_mono _ _ _ Hab (keys_sorted_head _ _ _ _ _ Hs)) as Hab'.
  unfold records_with_prefix. simpl. rewrite (above_not_HasPrefix _ _ Hab').
  apply (IH k' v'); [by eapply keys_sorted_tail|done].
Qed.

(** From a key on that is not below the prefix, the loop visits exactly the
    records whose key starts with the prefix. *)
Lemma prefix_run_not_below p cursor :
  keys_sorted cursor = true ->
  match cursor with (k, _) :: _ => String.ltb k p = false | [] => True end ->
  prefix_run p cursor = records_with_prefix p cursor.
Proof.
  induction cursor as [|[k v] rest IH]; intros Hs Hk; [done|].
  unfold records_with_prefix. simpl.
  destruct (strings_HasPrefix k p) eqn:Hkp.
  - f_equal. apply IH; [by eapply keys_sorted_tail|].
    destruct rest as [|[k' v'] rest]; [done|].
    destruct (String.ltb k' p) eqn:Hlt; [|done].
    rewrite <- Hk. symmetry.
    by apply (String_ltb_trans _ k'); [eapply keys_sorted_head|].
  - symmetry. apply (above_no_records p k v); [done|].
    by apply not_below_not_prefixed.
Qed.

(** On a sorted store, seek and the prefix loop visit exactly the records
    whose key starts with the prefix. *)
Lemma prefix_run_Seek p db :
  keys_sorted db = true ->
  prefix_run p (it_Seek p db) = records_with_prefix p db.
Proof.
  induction db as [|[k v] db IH]; intros Hs; [done|].
  simpl. destruct (String.ltb k p) eqn:Hlt.
  - unfold records_with_prefix. simpl. rewrite (ltb_not_HasPrefix _ _ Hlt).
    apply IH. by eapply keys_sorted_tail.
  - by apply prefix_run_not_below.
Qed.

Lemma elem_of_records_with_prefix p db k :
  k ∈ (records_with_prefix p db).*1 <-> k ∈ db.*1 /\ strings_HasPrefix k p = true.
Proof.
  unfold records_with_prefix. rewrite !list_elem_of_fmap. split.
  - intros [[k' v] [-> Hin]]. apply list_elem_of_In, filter_In in Hin as [Hin Hp].
    split; [|done]. exists (k', v). split; [done|]. by apply list_elem_of_In.
  - intros [[[k' v] [-> Hin]] Hp]. exists (k', v). split; [done|].
    apply list_elem_of_In, filter_In. split; [by apply list_elem_of_In|done].
Qed.

Lemma txn_Get_None k db : k ∉ db.*1 -> txn_Get k db = None.
Proof.
  induction db as [|[k' v] db IH]; [done|]. simpl. intros Hk.
  apply not_elem_of_cons in Hk as [Hne Hk].
  destruct (String.eqb_spec k' k) as [->|]; [done|]. by apply IH.
Qed.

Lemma txn_Get_Delete k k' db :
  txn_Get k (txn_Delete k' db) = if String.eqb k' k then None else txn_Get k db.
Proof.
  induction db as [|[k0 v0] db IH]; simpl; [by destruct (String.eqb k' k)|].
  destruct (String.eqb_spec k0 k') as [->|Hne]; simpl.
  - rewrite IH. by destruct (String.eqb k' k).
  - rewrite IH. destruct (String.eqb_spec k' k) as [->|]; [|done].
    by apply String.eqb_neq in Hne as ->.
Qed.

(** The write phase succeeds and removes exactly the collected keys. *)
Lemma delete_matched_spec matched : forall tx,
  exists tx', delete_matched matched tx = (Val tt, tx') /\
    forall k, txn_Get k tx' = if bool_decide (k ∈ matched) then None else txn_Get k tx.
Proof.
  induction matched as [|k0 matched IH]; intros tx.
  - exists tx. split; [done|]. intros k. case_bool_decide as Hin; [by inversion Hin|done].
  - destruct (IH (txn_Delete k0 tx)) as (tx' & Hdel & Hget). exists tx'.
    split; [done|]. intros k. rewrite Hget, txn_Get_Delete.
    destruct (String.eqb_spec k0 k) as [->|Hne].
    + rewrite (bool_decide_eq_true_2 (k ∈ k :: matched)) by (by left).
      by destruct (bool_decide (k ∈ matched)).
    + by rewrite (bool_decide_ext (k ∈ k0 :: matched) (k ∈ matched))
        by (rewrite elem_of_cons; split; [by intros [->|?]|by right]).
Qed.

Lemma db_Update_delete_matched matched db :
  exists db', db_Update (delete_matched matched) db = (Val tt, db') /\
    forall k, txn_Get k db' = if bool_decide (k ∈ matched) then None else txn_Get k db.
Proof.
  destruct (delete_matched_spec matched db) as (db' & Hdel & Hget).
  exists db'. unfold db_Update. by rewrite Hdel.
Qed.

(** ** Key order is an invariant of the store *)

Lemma keys_sorted_cons k v db :
  keys_sorted ((k, v) :: db) = true <->
  (forall k', k' ∈ db.*1 -> String.ltb k k' = true) /\ keys_sorted db = true.
Proof.
  revert k v. induction db as [|[k1 v1] db IH]; intros k v.
  - split; [|done]. intros _. split; [|done]. by intros k' Hin%elem_of_nil.
  - change (keys_sorted ((k, v) :: (k1, v1) :: db))
      with (String.ltb k k1 && keys_sorted ((k1, v1) :: db)).
    rewrite andb_true_iff. split.
    + intros [Hlt Hs]. split; [|done]. intros k' Hin.
      apply elem_of_cons in Hin as [->|Hin]; [done|].
      apply (String_ltb_trans _ k1); [done|]. by apply (IH k1 v1).
    + intros [Hall Hs]. split; [|done]. apply Hall. by left.
Qed.

Lemma txn_Delete_keys k key db : k ∈ (txn_Delete key db).*1 -> k ∈ db.*1.
Proof.
  induction db as [|[k1 v1] db IH]; [done|]. simpl.
  destruct (String.eqb k1 key); simpl.
  - intros Hin. right. by apply IH.
  - intros [->|Hin]%elem_of_cons; [by left|]. right. by apply IH.
Qed.

Lemma txn_Delete_sorted key db :
  keys_sorted db = true -> keys_sorted (txn_Delete key db) = true.
Proof.
  induction db as [|[k1 v1] db IH]; [done|].
  intros [Hall Hs]%keys_sorted_cons. simpl.
  destruct (String.eqb k1 key); [by apply IH|].
  apply keys_sorted_cons. split; [|by apply IH].
  intros k' Hin. by apply Hall, (txn_Delete_keys _ key).
Qed.

Lemma txn_Set_keys k key value db :
  k ∈ (txn_Set key value db).*1 -> k = key \/ k ∈ db.*1.
Proof.
  induction db as [|[k1 v1] db IH]; simpl.
  - intros [->|Hin]%elem_of_cons; [by left|by right].
  - destruct (String.compare key k1); simpl.
    + intros [->|Hin]%elem_of_cons; [by left|]. right. by right.
    + intros [->|Hin]%elem_of_cons; [by left|by right].
    + intros [->|Hin]%elem_of_cons; [right; by left|].
      destruct (IH Hin) as [->|Hin']; [by left|]. right. by right.
Qed.

Lemma txn_Set_sorted key value db :
  keys_sorted db = true -> keys_sorted (txn_Set key value db) = true.
Proof.
  induction db as [|[k1 v1] db IH]; [done|].
  intros Hs. pose proof Hs as [Hall Hs']%keys_sorted_cons. simpl.
  destruct (String.compare key k1) eqn:Hcmp.
  - apply String.compare_eq_iff in Hcmp as ->. by apply keys_sorted_cons.
  - assert (String.ltb key k1 = true) as Hlt by (unfold String.ltb; by rewrite Hcmp).
    apply keys_sorted_cons. split; [|done]. intros k' [->|Hin]%elem_of_cons; [done|].
    apply (String_ltb_trans _ k1); [done|by apply Hall].
  - apply keys_sorted_cons. split; [|by apply IH].
    intros k' Hin. destruct (txn_Set_keys _ _ _ _ Hin) as [->|Hin']; [|by apply Hall].
    unfold String.ltb. by rewrite String.compare_antisym, Hcmp.
Qed.

Lemma delete_matched_sorted matched : forall tx,
  keys_sorted tx = true -> keys_sorted (delete_matched matched tx).2 = true.
Proof.
  induction matched as [|k matched IH]; intros tx Hs; [done|].
  simpl. by apply IH, txn_Delete_sorted.
Qed.

Lemma db_Update_sorted fn db :
  keys_sorted db = true ->
  (forall tx, keys_sorted tx = true -> keys_sorted (fn tx).2 = true) ->
  keys_sorted (db_Update fn db).2 = true.
Proof.
  intros Hs Hfn. unfold db_Update. specialize (Hfn db Hs).
  destruct (fn db) as [[[]|e|v] db']; done.
Qed.

Lemma it_Seek_length key db : length (it_Seek key db) <= length db.
Proof.
  induction db as [|[k v] db IH]; simpl; [done|].
  destruct (String.ltb k key); simpl; lia.
Qed.

Lemma txn_Delete_length key db : length (txn_Delete key db) <= length db.
Proof.
  induction db as [|[k v] db IH]; [done|]. cbn [txn_Delete].
  destruct (String.eqb k key); cbn [length]; lia.
Qed.

(** Deleting records moves no more records behind a seek position. *)
Lemma it_Seek_Delete_length prefix key db :
  length (it_Seek prefix (txn_Delete key db)) <= length (it_Seek prefix db).
Proof.
  induction db as [|[k v] db IH]; [done|]. cbn [txn_Delete].
  pose proof (it_Seek_length prefix db). pose proof (txn_Delete_length key db).
  destruct (String.eqb k key); cbn [it_Seek]; destruct (String.ltb k prefix);
    cbn [length]; lia.
Qed.

Lemma it_Seek_delete_matched_length prefix matched : forall tx,
  length (it_Seek prefix (delete_matched matched tx).2) <= length (it_Seek prefix tx).
Proof.
  induction matched as [|k matched IH]; intros tx; [done|]. cbn [delete_matched].
  etrans; [apply IH|]. apply it_Seek_Delete_length.
Qed.

(** ** The adapter *)

Section AdapterProperties.
Context `{Externals}.

Lemma withPrefix_HasPrefix ns k1 k2 :
  strings_HasPrefix (withPrefix ns k1) (withPrefix ns k2) = strings_HasPrefix k1 k2.
Proof. unfold withPrefix. by rewrite !HasPrefix_app_app. Qed.

(** Every write of the adapter keeps the store in key order, so the stores
    the adapter builds from an empty one are in key order. *)
Lemma put_rule_sorted a line tx :
  keys_sorted tx = true -> keys_sorted (put_rule a line tx).2 = true.
Proof.
  intros Hs. unfold put_rule, bucket_Put.
  destruct (json_Marshal line); [|done..].
  destruct (txn_Set_refused _ _); [done|]. by apply txn_Set_sorted.
Qed.

Lemma add_rules_sorted a ptype rules : forall tx,
  keys_sorted tx = true -> keys_sorted (add_rules a ptype rules tx).2 = true.
Proof.
  induction rules as [|r rules IH]; intros tx Hs; [done|]. simpl.
  pose proof (put_rule_sorted a (convertRule ptype r) tx Hs) as Hput.
  destruct (put_rule a (convertRule ptype r) tx) as [[[]|e|v] tx']; [|done..].
  by apply IH.
Qed.

Lemma AddPolicies_sorted a sec ptype rules db :
  keys_sorted db = true -> keys_sorted (AddPolicies a sec ptype rules db).2 = true.
Proof. intros Hs. apply db_Update_sorted; [done|]. apply add_rules_sorted. Qed.

Lemma AddPolicy_sorted a sec ptype rule db :
  keys_sorted db = true -> keys_sorted (AddPolicy a sec ptype rule db).2 = true.
Proof. intros Hs. apply db_Update_sorted; [done|]. intros tx. apply put_rule_sorted. Qed.

Lemma RemovePolicy_sorted a sec ptype line db :
  keys_sorted db = true -> keys_sorted (RemovePolicy a sec ptype line db).2 = true.
Proof.
  intros Hs. apply db_Update_sorted; [done|]. intros tx. apply txn_Delete_sorted.
Qed.

Lemma UpdatePolicy_sorted a sec ptype oldRule newPolicy db :
  keys_sorted db = true ->
  keys_sorted (UpdatePolicy a sec ptype oldRule newPolicy db).2 = true.
Proof.
  intros Hs. apply db_Update_sorted; [done|]. intros tx Htx. unfold update_rule.
  destruct (bucket_Exist _ _ _); [|done]. simpl.
  by apply put_rule_sorted, txn_Delete_sorted.
Qed.

Lemma RemoveFilteredPolicy_sorted a sec ptype fieldIndex fieldValues db :
  keys_sorted db = true ->
  keys_sorted (RemoveFilteredPolicy a sec ptype fieldIndex fieldValues db).2 = true.
Proof.
  intros Hs. unfold RemoveFilteredPolicy. destruct fieldValues as [fvs|]; [|done].
  destruct (collect_matched a ptype fieldIndex fvs db) as [[[]|e|v] matched]; [|done..].
  apply db_Update_sorted; [done|]. apply delete_matched_sorted.
Qed.

(** What a successful read phase means for the store after the write phase. *)
Lemma RemoveFilteredPolicy_collected a sec ptype fieldIndex fieldValues db matched :
  collect_matched a ptype fieldIndex fieldValues db = (Val tt, matched) ->
  exists db',
    RemoveFilteredPolicy a sec ptype fieldIndex (Some fieldValues) db = (Val tt, db') /\
    forall k, txn_Get k db' = if bool_decide (k ∈ matched) then None else txn_Get k db.
Proof.
  intros Hc. unfold RemoveFilteredPolicy. rewrite Hc.
  apply db_Update_delete_matched.
Qed.

(** *** The iterator *)

Lemma parseItem_remaining it : remaining (parseItem it) = remaining it.
Proof.
  unfold parseItem, remaining. destruct (it_source it) as [|[k v] source] eqn:Hsrc.
  { by rewrite Hsrc. }
  destruct (SafeCopy _ _ _) as [memory key].
  destruct (it_item it); simpl; rewrite ?length_app; simpl; lia.
Qed.

Lemma iter_Next_remaining it :
  is_Some (it_item it) -> S (remaining (iter_Next it)) = remaining it.
Proof.
  intros [item Hitem]. unfold iter_Next. rewrite Hitem, parseItem_remaining.
  unfold remaining. rewrite Hitem. simpl. by destruct (it_data it).
Qed.

Lemma prefetch_items_remaining count : forall it,
  remaining (prefetch_items count it) = remaining it.
Proof.
  induction count as [|count IH]; intros it; simpl; [done|].
  destruct (it_source it) eqn:Hsrc; [done|]. by rewrite IH, parseItem_remaining.
Qed.

Lemma iter_Seek_remaining key tx :
  remaining (iter_Seek key tx (txn_NewIterator tx)) <= length tx.
Proof.
  unfold iter_Seek, prefetch. rewrite prefetch_items_remaining.
  unfold remaining. simpl. apply it_Seek_length.
Qed.

(** Fuel above the number of items still to pass is never used up. *)
Lemma iter_loop_enough {A} prefix (body : Slice -> string -> A -> res unit * A) :
  forall fuel1 fuel2 it acc,
    remaining it < fuel1 -> remaining it < fuel2 ->
    iter_loop fuel1 prefix body it acc = iter_loop fuel2 prefix body it acc.
Proof.
  induction fuel1 as [|fuel1 IH]; intros fuel2 it acc H1 H2; [lia|].
  destruct fuel2 as [|fuel2]; [lia|]. simpl.
  destruct (it_item it) as [k|] eqn:Hitem; [|done].
  destruct (strings_HasPrefix _ _); [|done].
  destruct (body k _ acc) as [[[]|e|v] acc']; [|done..].
  assert (S (remaining (iter_Next it)) = remaining it) as Hnext.
  { apply iter_Next_remaining. by rewrite Hitem. }
  apply IH; lia.
Qed.

(** The loop of RemoveFilteredPolicy has the fuel it needs: more changes
    nothing. *)
Lemma iter_loop_fuel {A} prefix (body : Slice -> string -> A -> res unit * A) tx acc fuel :
  length tx < fuel ->
  iter_loop fuel prefix body (iter_Seek prefix tx (txn_NewIterator tx)) acc =
  iter_loop (S (length tx)) prefix body (iter_Seek prefix tx (txn_NewIterator tx)) acc.
Proof.
  intros Hfuel. pose proof (iter_Seek_remaining prefix tx).
  apply iter_loop_enough; lia.
Qed.

Lemma slice_bytes_shows memory k key : shows memory k key -> slice_bytes memory k = key.
Proof.
  intros (arr & Harr & <- & Hlen). unfold slice_bytes. rewrite Harr, Hlen.
  rewrite <- (append_nil_r (array_bytes arr)) at 1. by rewrite slice_to_app.
Qed.

Lemma shows_app memory arr k key : shows memory k key -> shows (memory ++ [arr]) k key.
Proof.
  intros (arr' & Harr & Hbytes & Hlen). exists arr'.
  split; [|done]. by apply lookup_app_l_Some.
Qed.

(** Reading ahead no more records than the store has left fills one new
    array per record. *)
Lemma prefetch_items_all source : forall count it queue keys,
  it_source it = source -> it_waste it = [] ->
  it_item it = head queue -> it_data it = tail queue ->
  Forall2 (shows (it_memory it)) queue keys ->
  length source <= count ->
  exists queue',
    it_source (prefetch_items count it) = [] /\
    it_item (prefetch_items count it) = head queue' /\
    it_data (prefetch_items count it) = tail queue' /\
    Forall2 (shows (it_memory (prefetch_items count it))) queue' (keys ++ source.*1).
Proof.
  induction source as [|[k v] source IH]; intros count it queue keys Hsrc Hw Hi Hd Hq Hc.
  - exists queue. rewrite app_nil_r.
    destruct count; simpl; [done|]. by rewrite Hsrc.
  - destruct count as [|count]; [simpl in Hc; lia|]. simpl. rewrite Hsrc.
    set (key := {| slice_array := length (it_memory it); slice_len := String.length k |}).
    set (arr := {| array_bytes := k; array_cap := growslice 0 (String.length k) |}).
    destruct (IH count (parseItem it) (queue ++ [key]) (keys ++ [k])) as (queue' & Hq');
      try (unfold parseItem; rewrite Hsrc, Hw; simpl; by destruct (it_item it)).
    + unfold parseItem. rewrite Hsrc, Hw, Hi. simpl. by destruct queue.
    + unfold parseItem. rewrite Hsrc, Hw, Hi, Hd. simpl. by destruct queue.
    + assert (it_memory (parseItem it) = it_memory it ++ [arr]) as ->.
      { unfold parseItem. rewrite Hsrc, Hw. simpl. by destruct (it_item it). }
      apply Forall2_app.
      * eapply Forall2_impl; [done|]. intros ? ?. apply shows_app.
      * constructor; [|done]. exists arr. split; [|done].
        subst key. simpl. by apply list_lookup_middle.
    + simpl in Hc. lia.
    + exists queue'. by rewrite <- app_assoc in Hq'.
Qed.

(** Within the prefetch window, Seek leaves an iterator that has read the
    store to its end and shows every key in an array of its own. *)
Lemma iter_Seek_window key tx :
  length (it_Seek key tx) <= PrefetchSize ->
  exists queue,
    it_source (iter_Seek key tx (txn_NewIterator tx)) = [] /\
    it_item (iter_Seek key tx (txn_NewIterator tx)) = head queue /\
    it_data (iter_Seek key tx (txn_NewIterator tx)) = tail queue /\
    Forall2 (shows (it_memory (iter_Seek key tx (txn_NewIterator tx)))) queue
      (it_Seek key tx).*1.
Proof.
  intros Hw. unfold iter_Seek, prefetch.
  by apply (prefetch_items_all (it_Seek key tx) PrefetchSize _ [] []).
Qed.

Lemma filter_true {A} (l : list A) : List.filter (fun _ => true) l = l.
Proof. induction l; simpl; congruence. Qed.

(** Once the store is read to its end, Next writes to no array: a loop whose
    body keeps the slices of the keys that pass [test] ends with slices that
    show those keys. *)
Lemma iter_loop_window prefix body test rest :
  (forall k found acc,
     strings_HasPrefix found prefix = true ->
     body k found acc = (Val tt, if test found : bool then acc ++ [k] else acc)) ->
  forall fuel it queue acc,
    it_source it = [] -> it_item it = head queue -> it_data it = tail queue ->
    Forall2 (shows (it_memory it)) queue rest.*1 ->
    length rest < fuel ->
    exists matched,
      iter_loop fuel prefix body it acc = (Val tt, (acc ++ matched, it_memory it)) /\
      slice_bytes (it_memory it) <$> matched
      = List.filter test (prefix_run prefix rest).*1.
Proof.
  intros Hbody. induction rest as [|[key v] rest IH];
    intros fuel it queue acc Hsrc Hi Hd Hq Hfuel.
  - apply Forall2_nil_inv_r in Hq as ->. exists []. rewrite app_nil_r.
    destruct fuel; simpl; [done|]. by rewrite Hi.
  - destruct fuel as [|fuel]; [simpl in Hfuel; lia|]. rewrite fmap_cons in Hq.
    apply Forall2_cons_inv_r in Hq as (k & queue' & Hk & Hq & ->).
    cbn [head tail] in Hi, Hd. cbn [fst] in Hk.
    cbn [iter_loop prefix_run fst]. rewrite Hi, (slice_bytes_shows _ _ _ Hk).
    destruct (strings_HasPrefix key prefix) eqn:Hp; [|exists []; by rewrite app_nil_r].
    rewrite Hbody by done.
    assert (iter_Next it =
            {| it_source := []; it_item := head queue'; it_data := tail queue';
               it_waste := it_waste it ++ [k]; it_memory := it_memory it |}) as Hnext.
    { unfold iter_Next, parseItem. rewrite Hi, Hd, Hsrc. done. }
    destruct (IH fuel (iter_Next it) queue' (if test key then acc ++ [k] else acc))
      as (matched & Hrun & Hshow); try (by rewrite Hnext); [simpl in Hfuel; lia|].
    rewrite Hrun. rewrite Hnext in Hshow |- *. cbn [it_memory] in Hshow |- *.
    rewrite fmap_cons. cbn [List.filter fst]. destruct (test key).
    + exists (k :: matched). rewrite <- app_assoc. split; [done|].
      rewrite fmap_cons, (slice_bytes_shows _ _ _ Hk). by f_equal.
    + by exists matched.
Qed.

(** The loops of RemoveFilteredPolicy within the prefetch window: what the
    write phase finds in the slices kept are the keys that passed [test]. *)
Lemma iter_loop_Seek_window prefix body test tx :
  (forall k found acc,
     strings_HasPrefix found prefix = true ->
     body k found acc = (Val tt, if test found : bool then acc ++ [k] else acc)) ->
  length (it_Seek prefix tx) <= PrefetchSize ->
  exists matched memory,
    iter_loop (S (length tx)) prefix body (iter_Seek prefix tx (txn_NewIterator tx)) []
    = (Val tt, (matched, memory)) /\
    slice_bytes memory <$> matched
    = List.filter test (prefix_run prefix (it_Seek prefix tx)).*1.
Proof.
  intros Hbody Hw.
  destruct (iter_Seek_window prefix tx Hw) as (queue & Hsrc & Hi & Hd & Hq).
  destruct (iter_loop_window prefix body test (it_Seek prefix tx) Hbody
              (S (length tx)) _ queue [] Hsrc Hi Hd Hq) as (matched & Hrun & Hshow).
  { pose proof (it_Seek_length prefix tx). lia. }
  by exists matched, (it_memory (iter_Seek prefix tx (txn_NewIterator tx))).
Qed.

(** The read phase for fieldIndex 0: the keys that start with the key of
    policy type and filter values. *)
Lemma collect_matched_prefix a ptype fieldValues db :
  keys_sorted db = true ->
  length (it_Seek (withPrefix (namespace a) (getKey (convertRule ptype fieldValues))) db)
    <= PrefetchSize ->
  collect_matched a ptype 0 fieldValues db =
  (Val tt, (records_with_prefix
              (withPrefix (namespace a) (getKey (convertRule ptype fieldValues))) db).*1).
Proof.
  intros Hs Hw. unfold collect_matched, db_View. simpl Z.eqb. cbv iota.
  destruct (iter_loop_Seek_window
              (withPrefix (namespace a) (getKey (convertRule ptype fieldValues)))
              (fun k _ matched => (Val tt, matched ++ [k])) (fun _ => true) db)
    as (matched & memory & Hrun & Hshow); [done|done|].
  unfold getKey, convertRule in Hrun. rewrite Hrun, Hshow, filter_true.
  by rewrite prefix_run_Seek.
Qed.

(** C1, as amended.  On a store in key order that has at most PrefetchSize
    (100) records from the scan prefix to its end, RemoveFilteredPolicy with
    fieldIndex 0 and field values that are not nil succeeds and removes
    exactly the records whose key starts, byte for byte, with the key of
    [ptype, fieldValues...] inside the namespace; every other record is
    unchanged.  Every rule of that policy type whose leading fields are the
    field values is among the removed ones.  (On a store with more records
    behind the scan prefix the keys kept by the read phase are overwritten
    before they are deleted; that run is left out of this statement.) *)
Theorem RemoveFilteredPolicy_prefix a sec ptype fieldValues db :
  keys_sorted db = true ->
  length (it_Seek (withPrefix (namespace a) (getKey (convertRule ptype fieldValues))) db)
    <= PrefetchSize ->
  exists db',
    RemoveFilteredPolicy a sec ptype 0 (Some fieldValues) db = (Val tt, db') /\
    (forall k,
       txn_Get k db' =
       if strings_HasPrefix k (withPrefix (namespace a) (getKey (convertRule ptype fieldValues)))
       then None else txn_Get k db) /\
    (forall rest,
       txn_Get (withPrefix (namespace a) (getKey (convertRule ptype (fieldValues ++ rest)))) db'
       = None).
Proof.
  intros Hs Hw.
  destruct (RemoveFilteredPolicy_collected a sec ptype 0 fieldValues db _
              (collect_matched_prefix a ptype fieldValues db Hs Hw)) as (db' & Hrun & Hget).
  assert (forall k,
    txn_Get k db' =
    if strings_HasPrefix k (withPrefix (namespace a) (getKey (convertRule ptype fieldValues)))
    then None else txn_Get k db) as Hexact.
  { intros k. rewrite Hget. case_bool_decide as Hin.
    - apply elem_of_records_with_prefix in Hin as [_ ->]. done.
    - destruct (strings_HasPrefix k _) eqn:Hp; [|done].
      apply txn_Get_None. intros Hk. apply Hin.
      by apply elem_of_records_with_prefix. }
  exists db'. split; [done|]. split; [done|].
  intros rest. rewrite Hexact, withPrefix_HasPrefix.
  unfold getKey, convertRule. simpl app. by rewrite Join_HasPrefix_app.
Qed.

(** Field values that are nil are rejected and the store is left alone. *)
Lemma RemoveFilteredPolicy_nil a sec ptype fieldIndex db :
  RemoveFilteredPolicy a sec ptype fieldIndex None db
  = (Err (errors_New "empty filed values"), db).
Proof. reflexivity. Qed.

(** C10.  For a negative fieldIndex and field values that are not nil,
    RemoveFilteredPolicy runs neither scan (nothing is collected), returns
    nil and leaves the store as it was. *)
Theorem RemoveFilteredPolicy_negative_index a sec ptype fieldIndex fieldValues db :
  (fieldIndex < 0)%Z ->
  collect_matched a ptype fieldIndex fieldValues db = (Val tt, []) /\
  RemoveFilteredPolicy a sec ptype fieldIndex (Some fieldValues) db = (Val tt, db).
Proof.
  intros Hneg.
  assert (collect_matched a ptype fieldIndex fieldValues db = (Val tt, [])) as Hc.
  { unfold collect_matched.
    destruct (Z.eqb_spec fieldIndex 0) as [->|_]; [lia|].
    destruct (Z.gtb_spec fieldIndex (-1)); [lia|done]. }
  split; [done|]. unfold RemoveFilteredPolicy. by rewrite Hc.
Qed.

(** C6.  SavePolicy returns the error "not supported: must use auto-save
    with this adapter" for every model, and the store is unchanged. *)
Theorem SavePolicy_not_supported a model db :
  SavePolicy a model db
  = (Err (errors_New "not supported: must use auto-save with this adapter"), db).
Proof. intros. unfold SavePolicy. reflexivity. Qed.

(** C4, as amended.  UpdateFilteredPolicies panics with the value
    "implement" for every input: it returns neither rules nor an error
    value, and it does not touch the store. *)
Theorem UpdateFilteredPolicies_panics a sec ptype newPolicies fieldIndex fieldValues db :
  UpdateFilteredPolicies a sec ptype newPolicies fieldIndex fieldValues db
  = (Panic "implement", db).
Proof. intros. unfold UpdateFilteredPolicies. reflexivity. Qed.

(** C7.  When the lists of old and new rules differ in length,
    UpdatePolicies returns the error InvalidRulesLen and the store is
    exactly as before the call. *)
Theorem UpdatePolicies_length_mismatch a sec ptype oldRules newRules db :
  length oldRules <> length newRules ->
  UpdatePolicies a sec ptype oldRules newRules db = (Err InvalidRulesLen, db).
Proof.
  intros Hlen. unfold UpdatePolicies, db_Update.
  by apply Nat.eqb_neq in Hlen as ->.
Qed.

(** C8.  When the key of the old rule is absent from the bucket,
    UpdatePolicy returns nil and the store is unchanged; the new rule is not
    inserted. *)
Theorem UpdatePolicy_absent a sec ptype oldRule newPolicy db :
  txn_Get (withPrefix (namespace a) (getKey (convertRule ptype oldRule))) db = None ->
  UpdatePolicy a sec ptype oldRule newPolicy db = (Val tt, db) /\
  txn_Get (withPrefix (namespace a) (getKey (convertRule ptype newPolicy)))
    (UpdatePolicy a sec ptype oldRule newPolicy db).2
  = txn_Get (withPrefix (namespace a) (getKey (convertRule ptype newPolicy))) db.
Proof.
  intros Habsent.
  assert (UpdatePolicy a sec ptype oldRule newPolicy db = (Val tt, db)) as Hrun.
  { unfold UpdatePolicy, db_Update, update_rule, bucket_Exist.
    rewrite Habsent. rewrite bool_decide_eq_false_2; [done|]. by intros [? ?]. }
  by rewrite Hrun.
Qed.

End AdapterProperties.

(** ** The key encoding *)

(** C3, as amended.  Two distinct rules [ptype, field0, ..., fieldN] have
    distinct storage keys when every component of both is clean, that is,
    holds no "::" and does not end in a colon.  (The adapter checks no
    component; outside this class keys can coincide.) *)
Theorem getKey_injective ptype1 line1 ptype2 line2 :
  forallb field_clean (convertRule ptype1 line1) = true ->
  forallb field_clean (convertRule ptype2 line2) = true ->
  convertRule ptype1 line1 <> convertRule ptype2 line2 ->
  getKey (convertRule ptype1 line1) <> getKey (convertRule ptype2 line2).
Proof.
  unfold convertRule, getKey. simpl app. intros Hc1 Hc2 Hne Hkey.
  apply Hne. rewrite <- (Split_Join ptype1 line1 Hc1), <- (Split_Join ptype2 line2 Hc2).
  by rewrite Hkey.
Qed.

(** ** The contains scan *)

Lemma int_add_small x y :
  (int_min <= x + y <= int_max)%Z -> int_add x y = (x + y)%Z.
Proof.
  unfold int_add, int_min, int_max. intros Hr.
  rewrite Z.mod_small; lia.
Qed.

Lemma Join_cons_tail x xs sep :
  strings_Join (x :: xs) sep =
  x +:+ match xs with [] => "" | _ :: _ => sep +:+ strings_Join xs sep end.
Proof. destruct xs; simpl; [by rewrite append_nil_r|done]. Qed.

Section ScanProperties.
Context `{Externals}.

Lemma scan_body_spec a fieldIndex fieldValue fieldValues keyStr k found matched :
  (0 < fieldIndex < int_max)%Z ->
  String.length (namespace a) <= String.length found ->
  scan_body a fieldIndex (fieldValue :: fieldValues) keyStr k found matched =
  (Val tt, if scan_match a fieldIndex fieldValue keyStr found
           then matched ++ [k] else matched).
Proof.
  intros Hi Hlen. unfold scan_body, scan_match.
  destruct (strings_Contains found keyStr); [|done]. simpl andb.
  destruct (slice_from_is_Some _ _ Hlen) as [suffix ->].
  rewrite int_add_small by (unfold int_min, int_max in *; lia).
  unfold go_index.
  destruct (Z.ltb_spec (fieldIndex + 1) 0) as [|_]; [lia|].
  destruct (Z.ltb_spec 0 0) as [|_]; [lia|]. simpl lookup.
  destruct (Z.ltb_spec (fieldIndex + 1) (Z.of_nat (length (strings_Split suffix "::"))))
    as [Hlt|Hge].
  - destruct (lookup_lt_is_Some_2 (strings_Split suffix "::") (Z.to_nat (fieldIndex + 1)))
      as [value Hv]; [lia|].
    rewrite Hv. destruct (String.eqb_spec value fieldValue) as [->|Hne].
    + by rewrite bool_decide_eq_true_2.
    + rewrite bool_decide_eq_false_2; [done|]. by intros [= ?].
  - rewrite lookup_ge_None_2 by lia. by rewrite bool_decide_eq_false_2.
Qed.

(** The read phase for a positive fieldIndex: the keys of the scanned range
    that pass the test of the scan. *)
Lemma collect_matched_scan a ptype fieldIndex fieldValue fieldValues db :
  keys_sorted db = true -> (0 < fieldIndex < int_max)%Z ->
  length (it_Seek (withPrefix (namespace a) ptype) db) <= PrefetchSize ->
  collect_matched a ptype fieldIndex (fieldValue :: fieldValues) db =
  (Val tt,
   List.filter
     (scan_match a fieldIndex fieldValue (strings_Join (fieldValue :: fieldValues) "::"))
     (records_with_prefix (withPrefix (namespace a) ptype) db).*1).
Proof.
  intros Hs Hi Hw. unfold collect_matched, db_View.
  destruct (Z.eqb_spec fieldIndex 0) as [|_]; [lia|].
  destruct (Z.gtb_spec fieldIndex (-1)) as [_|]; [|lia].
  change (prefixPolicies +:+ namespace a +:+ ptype) with (withPrefix (namespace a) ptype).
  destruct (iter_loop_Seek_window (withPrefix (namespace a) ptype)
              (scan_body a fieldIndex (fieldValue :: fieldValues)
                 (strings_Join (fieldValue :: fieldValues) "::"))
              (scan_match a fieldIndex fieldValue
                 (strings_Join (fieldValue :: fieldValues) "::")) db)
    as (matched & memory & Hrun & Hshow); [|done|].
  - intros k found acc Hp. apply scan_body_spec; [done|].
    apply HasPrefix_length in Hp. unfold withPrefix in Hp.
    rewrite !length_append in Hp. lia.
  - rewrite Hrun, Hshow. by rewrite prefix_run_Seek.
Qed.

(** The store after a contains scan: gone are the keys of the scanned range
    that pass the test, nothing else. *)
Lemma RemoveFilteredPolicy_scan_exact a sec ptype fieldIndex fieldValue fieldValues db :
  keys_sorted db = true -> (0 < fieldIndex < int_max)%Z ->
  length (it_Seek (withPrefix (namespace a) ptype) db) <= PrefetchSize ->
  exists db',
    RemoveFilteredPolicy a sec ptype fieldIndex (Some (fieldValue :: fieldValues)) db
    = (Val tt, db') /\
    forall k,
      txn_Get k db' =
      if strings_HasPrefix k (withPrefix (namespace a) ptype) &&
         scan_match a fieldIndex fieldValue (strings_Join (fieldValue :: fieldValues) "::") k
      then None else txn_Get k db.
Proof.
  intros Hs Hi Hw.
  destruct (RemoveFilteredPolicy_collected a sec ptype fieldIndex _ db _
              (collect_matched_scan a ptype fieldIndex fieldValue fieldValues db Hs Hi Hw))
    as (db' & Hrun & Hget).
  exists db'. split; [done|]. intros k. rewrite Hget.
  case_bool_decide as Hin.
  - apply list_elem_of_In, filter_In in Hin as [Hin ->].
    apply list_elem_of_In, elem_of_records_with_prefix in Hin as [_ ->]. done.
  - destruct (strings_HasPrefix k _) eqn:Hp; [|done].
    destruct (scan_match _ _ _ _ _) eqn:Hm; [|done]. simpl.
    apply txn_Get_None. intros Hk. apply Hin.
    apply list_elem_of_In, filter_In. split; [|done].
    by apply list_elem_of_In, elem_of_records_with_prefix.
Qed.

(** What the scan reads from the key of a rule with clean components. *)
Lemma scan_values_of_rule a ptype line :
  forallb field_clean (ptype_component (namespace a) ptype :: line) = true ->
  exists suffix,
    slice_from (withPrefix (namespace a) (getKey (convertRule ptype line)))
      (String.length (namespace a)) = Some suffix /\
    strings_Split suffix "::" = ptype_component (namespace a) ptype :: line.
Proof.
  intros Hc.
  destruct (slice_from_is_Some (prefixPolicies +:+ namespace a +:+ ptype)
              (String.length (namespace a))) as [t Ht].
  { rewrite !length_append. lia. }
  assert (ptype_component (namespace a) ptype = t) as Hpc.
  { unfold ptype_component. by rewrite Ht. }
  exists (strings_Join (t :: line) "::"). split.
  - unfold withPrefix, getKey, convertRule. simpl app.
    rewrite !Join_cons_tail.
    rewrite <- (append_assoc (namespace a)), <- (append_assoc prefixPolicies).
    by apply slice_from_app_l.
  - rewrite <- Hpc. by apply Split_Join.
Qed.

(** C2, as amended.  On a store in key order that has at most PrefetchSize
    (100) records from the scan prefix (prefix, namespace, ptype) to its
    end, for a fieldIndex with 0 < fieldIndex < MaxInt and field values that
    are not empty, RemoveFilteredPolicy succeeds; it leaves every record
    unchanged whose key does not start with prefix, namespace and ptype; and
    a rule of policy type ptype is deleted exactly when its field at
    position fieldIndex equals fieldValues[0] and its key contains the field
    values joined by "::", provided its fields are clean and so is what the
    scan reads as component 0 of its key: the bytes of prefix, namespace
    and ptype from offset len(namespace) on.  Clean means: no "::" inside,
    no colon at the end.  (Records of a policy type whose name merely starts
    with ptype, rules with a component that is not clean, and stores with
    more records behind the scan prefix are left out of this statement.) *)
Theorem RemoveFilteredPolicy_scan a sec ptype fieldIndex fieldValue fieldValues db :
  keys_sorted db = true -> (0 < fieldIndex < int_max)%Z ->
  length (it_Seek (withPrefix (namespace a) ptype) db) <= PrefetchSize ->
  exists db',
    RemoveFilteredPolicy a sec ptype fieldIndex (Some (fieldValue :: fieldValues)) db
    = (Val tt, db') /\
    (forall k,
       strings_HasPrefix k (withPrefix (namespace a) ptype) = false ->
       txn_Get k db' = txn_Get k db) /\
    (forall line,
       forallb field_clean (ptype_component (namespace a) ptype :: line) = true ->
       txn_Get (withPrefix (namespace a) (getKey (convertRule ptype line))) db' =
       if bool_decide (line !! Z.to_nat fieldIndex = Some fieldValue) &&
          strings_Contains (withPrefix (namespace a) (getKey (convertRule ptype line)))
            (strings_Join (fieldValue :: fieldValues) "::")
       then None
       else txn_Get (withPrefix (namespace a) (getKey (convertRule ptype line))) db).
Proof.
  intros Hs Hi Hw.
  destruct (RemoveFilteredPolicy_scan_exact a sec ptype fieldIndex fieldValue fieldValues
              db Hs Hi Hw) as (db' & Hrun & Hget).
  exists db'. split; [done|]. split.
  - intros k Hp. by rewrite Hget, Hp.
  - intros line Hc. rewrite Hget.
    assert (strings_HasPrefix (withPrefix (namespace a) (getKey (convertRule ptype line)))
              (withPrefix (namespace a) ptype) = true) as ->.
    { rewrite withPrefix_HasPrefix. unfold getKey, convertRule. simpl app.
      rewrite Join_cons_tail. apply HasPrefix_app. }
    simpl andb. unfold scan_match.
    destruct (scan_values_of_rule a ptype line Hc) as (suffix & -> & ->).
    unfold go_index. destruct (Z.ltb_spec (fieldIndex + 1) 0) as [|_]; [lia|].
    replace (Z.to_nat (fieldIndex + 1)) with (S (Z.to_nat fieldIndex)) by lia.
    simpl lookup. by rewrite andb_comm.
Qed.

End ScanProperties.

(** ** Loading the policy *)

Lemma rules_of_cons key tokens lines :
  rules_of key (tokens :: lines) = rules_of key [tokens] ++ rules_of key lines.
Proof.
  unfold rules_of. simpl.
  destruct tokens as [|k rest]; [done|]. by destruct (String.eqb k key).
Qed.

Lemma rules_of_app key lines1 lines2 :
  rules_of key (lines1 ++ lines2) = rules_of key lines1 ++ rules_of key lines2.
Proof. apply omap_app. Qed.

Lemma policy_of_Some model key pol :
  policy_of model key = Some pol <->
  exists sec assertions assertion,
    slice_to key 1 = Some sec /\ model !! sec = Some assertions /\
    assertions !! key = Some assertion /\ Policy assertion = pol.
Proof.
  unfold policy_of. split.
  - destruct (slice_to key 1) as [sec|] eqn:Hs; [|done]. simpl.
    destruct (model !! sec) as [assertions|] eqn:Hm; [|done]. simpl.
    destruct (assertions !! key) as [assertion|] eqn:Ha; [|done]. simpl.
    intros [= <-]. by exists sec, assertions, assertion.
  - intros (sec & assertions & assertion & -> & Hm & Ha & <-). simpl.
    rewrite Hm. simpl. by rewrite Ha.
Qed.

Lemma extends_by_nil model : extends_by model model [].
Proof. intros key pol Hp. by rewrite app_nil_r. Qed.

Lemma extends_by_trans model1 model2 model3 lines1 lines2 :
  extends_by model1 model2 lines1 -> extends_by model2 model3 lines2 ->
  extends_by model1 model3 (lines1 ++ lines2).
Proof.
  intros H12 H23 key pol Hp. rewrite rules_of_app, app_assoc.
  apply H23. by apply H12.
Qed.

Lemma extends_by_loadable model model' lines tokens :
  extends_by model model' lines -> loadable model tokens -> loadable model' tokens.
Proof.
  intros Hext. destruct tokens as [|key rest]; [done|]. simpl.
  intros [pol Hp]. rewrite (Hext key pol Hp). by eexists.
Qed.

Section LoadProperties.
Context `{Externals}.

Lemma loadCsvPolicyLine_skip line model :
  String.eqb line "" || strings_HasPrefix line "#" = true ->
  loadCsvPolicyLine line model = (Val tt, model).
Proof. intros Hskip. unfold loadCsvPolicyLine. by rewrite Hskip. Qed.

(** A line that is read as [tokens] appends the rule to the policy list of
    its policy type, whatever the list already holds. *)
Lemma loadCsvPolicyLine_tokens line tokens model :
  String.eqb line "" || strings_HasPrefix line "#" = false ->
  csv_Read line = Val tokens -> loadable model tokens ->
  exists model', loadCsvPolicyLine line model = (Val tt, model') /\
                 extends_by model model' [tokens].
Proof.
  intros Hkeep Hread Hload. unfold loadCsvPolicyLine. rewrite Hkeep, Hread.
  destruct tokens as [|key0 rest]; [done|]. destruct Hload as [pol0 Hp0].
  apply policy_of_Some in Hp0 as (sec0 & assertions0 & assertion0 & Hs0 & Hm0 & Ha0 & <-).
  rewrite Hs0, Hm0, Ha0. eexists. split; [done|].
  intros key pol (sec & assertions & assertion & Hs & Hm & Ha & <-)%policy_of_Some.
  apply policy_of_Some. unfold rules_of. simpl.
  destruct (decide (sec = sec0)) as [->|Hsec].
  - rewrite Hm0 in Hm. injection Hm as <-.
    destruct (String.eqb_spec key0 key) as [->|Hkey].
    + rewrite Ha0 in Ha. injection Ha as <-.
      eexists sec0, _, _. split; [done|]. rewrite lookup_insert_eq.
      split; [done|]. rewrite lookup_insert_eq. split; [done|]. done.
    + eexists sec0, _, assertion. split; [done|]. rewrite lookup_insert_eq.
      split; [done|]. rewrite lookup_insert_ne by done. split; [done|].
      by rewrite app_nil_r.
  - destruct (String.eqb_spec key0 key) as [->|Hkey]; [congruence|].
    exists sec, assertions, assertion. split; [done|].
    rewrite lookup_insert_ne by done. split; [done|]. split; [done|].
    by rewrite app_nil_r.
Qed.





End LoadProperties.

(** * Further properties of the adapter *)

(** ** Lookups after a write *)

Lemma String_compare_refl s : String.compare s s = Eq.
Proof.
  pose proof (String.compare_antisym s s) as Ha.
  by destruct (String.compare s s).
Qed.

Lemma String_compare_Gt_neq s t : String.compare s t = Gt -> String.eqb s t = false.
Proof.
  intros Hgt. destruct (String.eqb_spec s t) as [->|]; [|done].
  by rewrite String_compare_refl in Hgt.
Qed.

Lemma txn_Get_Set k key value db :
  txn_Get k (txn_Set key value db) =
  if String.eqb key k then Some value else txn_Get k db.
Proof.
  induction db as [|[k0 v0] db IH]; [done|].
  cbn [txn_Set]. destruct (String.compare key k0) eqn:Hcmp.
  - apply String.compare_eq_iff in Hcmp as ->. cbn [txn_Get].
    by destruct (String.eqb k0 k).
  - done.
  - cbn [txn_Get]. rewrite IH.
    destruct (String.eqb_spec k0 k) as [->|]; [|done].
    by rewrite (String_compare_Gt_neq _ _ Hcmp).
Qed.

Lemma txn_Set_Set key value db :
  txn_Set key value (txn_Set key value db) = txn_Set key value db.
Proof.
  induction db as [|[k0 v0] db IH]; cbn [txn_Set].
  - by rewrite String_compare_refl.
  - destruct (String.compare key k0) eqn:Hcmp; cbn [txn_Set].
    + by rewrite String_compare_refl.
    + by rewrite String_compare_refl.
    + by rewrite Hcmp, IH.
Qed.

Lemma txn_Delete_absent key db : txn_Get key db = None -> txn_Delete key db = db.
Proof.
  induction db as [|[k0 v0] db IH]; [done|]. cbn [txn_Get txn_Delete].
  destruct (String.eqb k0 key); [done|]. intros Hnone. by rewrite IH.
Qed.

Lemma txn_Delete_Set key value db :
  txn_Get key db = None -> txn_Delete key (txn_Set key value db) = db.
Proof.
  induction db as [|[k0 v0] db IH]; intros Hnone.
  - cbn [txn_Set txn_Delete]. by rewrite String.eqb_refl.
  - cbn [txn_Get] in Hnone. destruct (String.eqb k0 key) eqn:Hk0; [done|].
    cbn [txn_Set]. destruct (String.compare key k0) eqn:Hcmp.
    + apply String.compare_eq_iff in Hcmp as ->. by rewrite String.eqb_refl in Hk0.
    + cbn [txn_Delete]. rewrite String.eqb_refl, Hk0.
      by rewrite txn_Delete_absent.
    + cbn [txn_Delete]. by rewrite Hk0, IH.
Qed.

Lemma txn_Get_elem_of k db : is_Some (txn_Get k db) <-> k ∈ db.*1.
Proof.
  induction db as [|[k0 v0] db IH]; cbn [txn_Get].
  - split; [by intros [? ?]|by intros ?%elem_of_nil].
  - rewrite fmap_cons, elem_of_cons. cbn [fst].
    destruct (String.eqb_spec k0 k) as [->|Hne].
    + split; [by left|by eexists].
    + rewrite IH. split; [by right|]. by intros [->|?].
Qed.

Section WriteProperties.
Context `{Externals}.

(** X1.  AddPolicy inserts or updates: when the rule serializes to [bts] and
    the engine accepts the write of [bts] under the key of the rule, the
    call returns nil, the key of the rule holds [bts] afterwards and every
    other key holds what it held before. *)
Theorem AddPolicy_stores a sec ptype rule db bts :
  json_Marshal (convertRule ptype rule) = Val bts ->
  txn_Set_refused (withPrefix (namespace a) (getKey (convertRule ptype rule))) bts = None ->
  exists db',
    AddPolicy a sec ptype rule db = (Val tt, db') /\
    forall k,
      txn_Get k db' =
      if String.eqb (withPrefix (namespace a) (getKey (convertRule ptype rule))) k
      then Some bts else txn_Get k db.
Proof.
  intros Hm Hok. unfold AddPolicy, db_Update, put_rule, bucket_Put. rewrite Hm, Hok.
  eexists. split; [done|]. intros k. apply txn_Get_Set.
Qed.

(** X2.  Adding a rule a second time changes nothing: the result and the store
    are those of the first call. *)
Theorem AddPolicy_idempotent a sec ptype rule db :
  AddPolicy a sec ptype rule (AddPolicy a sec ptype rule db).2
  = AddPolicy a sec ptype rule db.
Proof.
  unfold AddPolicy, db_Update, put_rule, bucket_Put.
  destruct (json_Marshal (convertRule ptype rule)) as [bts|e|v]; [|done..].
  destruct (txn_Set_refused _ bts) as [e|]; cbn [snd]; [done|].
  by rewrite txn_Set_Set.
Qed.

(** X3.  RemovePolicy always returns nil; afterwards the key of the rule is
    absent and every other key holds what it held before. *)
Theorem RemovePolicy_removes a sec ptype line db :
  exists db',
    RemovePolicy a sec ptype line db = (Val tt, db') /\
    forall k,
      txn_Get k db' =
      if String.eqb (withPrefix (namespace a) (getKey (convertRule ptype line))) k
      then None else txn_Get k db.
Proof.
  unfold RemovePolicy, db_Update, bucket_Delete. eexists. split; [done|].
  intros k. apply txn_Get_Delete.
Qed.

(** X4.  Removing a rule that is not stored is no error and leaves the store
    exactly as it was. *)
Theorem RemovePolicy_absent a sec ptype line db :
  txn_Get (withPrefix (namespace a) (getKey (convertRule ptype line))) db = None ->
  RemovePolicy a sec ptype line db = (Val tt, db).
Proof.
  intros Hnone. unfold RemovePolicy, db_Update, bucket_Delete.
  by rewrite txn_Delete_absent.
Qed.

(** X5.  Adding a rule that was not stored and removing it again gives back the
    store one started from. *)
Theorem AddPolicy_RemovePolicy a sec ptype rule db :
  txn_Get (withPrefix (namespace a) (getKey (convertRule ptype rule))) db = None ->
  RemovePolicy a sec ptype rule (AddPolicy a sec ptype rule db).2 = (Val tt, db).
Proof.
  intros Hnone. unfold RemovePolicy, AddPolicy, db_Update, put_rule, bucket_Put, bucket_Delete.
  destruct (json_Marshal (convertRule ptype rule)) as [bts|e|v]; cbn [snd].
  - destruct (txn_Set_refused _ bts); cbn [snd].
    + by rewrite txn_Delete_absent.
    + by rewrite txn_Delete_Set.
  - by rewrite txn_Delete_absent.
  - by rewrite txn_Delete_absent.
Qed.

(** X6.  UpdatePolicy on a stored rule: when the new rule serializes to [bts]
    and the engine accepts the write of [bts] under the key of the new rule,
    the call returns nil, the key of the new rule holds [bts], the key of the
    old rule is absent (unless it is the key of the new rule) and every
    other key holds what it held before. *)
Theorem UpdatePolicy_replaces a sec ptype oldRule newPolicy db value bts :
  txn_Get (withPrefix (namespace a) (getKey (convertRule ptype oldRule))) db = Some value ->
  json_Marshal (convertRule ptype newPolicy) = Val bts ->
  txn_Set_refused (withPrefix (namespace a) (getKey (convertRule ptype newPolicy))) bts = None ->
  exists db',
    UpdatePolicy a sec ptype oldRule newPolicy db = (Val tt, db') /\
    forall k,
      txn_Get k db' =
      if String.eqb (withPrefix (namespace a) (getKey (convertRule ptype newPolicy))) k
      then Some bts
      else if String.eqb (withPrefix (namespace a) (getKey (convertRule ptype oldRule))) k
           then None else txn_Get k db.
Proof.
  intros Hold Hm Hok.
  unfold UpdatePolicy, db_Update, update_rule, bucket_Exist, bucket_Delete, put_rule, bucket_Put.
  rewrite Hold, bool_decide_eq_true_2 by (by eexists). rewrite Hm, Hok.
  eexists. split; [done|]. intros k. by rewrite txn_Get_Set, txn_Get_Delete.
Qed.

(** X7.  When every rule serializes and the engine accepts every write,
    AddPolicies returns nil and stores what adding the rules one by one
    with AddPolicy stores. *)
Theorem AddPolicies_sequence a sec ptype rules db :
  Forall (fun r => writable a (convertRule ptype r)) rules ->
  AddPolicies a sec ptype rules db
  = (Val tt, foldl (fun d r => (AddPolicy a sec ptype r d).2) db rules).
Proof.
  intros Hall.
  assert (add_rules a ptype rules db
          = (Val tt, foldl (fun d r => (AddPolicy a sec ptype r d).2) db rules)) as Hrun.
  { revert db. induction Hall as [|r rules (bts & Hm & Hok) _ IH]; intros db; [done|].
    cbn [add_rules foldl].
    unfold AddPolicy at 2. unfold db_Update, put_rule, bucket_Put. rewrite Hm, Hok.
    cbn [snd]. apply IH. }
  unfold AddPolicies, db_Update. by rewrite Hrun.
Qed.

(** X8.  RemovePolicies always returns nil; afterwards the keys of the listed
    rules are absent and every other key holds what it held before. *)
Theorem RemovePolicies_removes a sec ptype rules db :
  exists db',
    RemovePolicies a sec ptype rules db = (Val tt, db') /\
    forall k,
      txn_Get k db' =
      if bool_decide
           (k ∈ map (fun r => withPrefix (namespace a) (getKey (convertRule ptype r))) rules)
      then None else txn_Get k db.
Proof.
  assert (forall tx, remove_rules a ptype rules tx =
            delete_matched
              (map (fun r => withPrefix (namespace a) (getKey (convertRule ptype r))) rules) tx)
    as Hrun.
  { induction rules as [|r rules IH]; intros tx; [done|].
    cbn [remove_rules map delete_matched]. unfold bucket_Delete. apply IH. }
  destruct (delete_matched_spec
              (map (fun r => withPrefix (namespace a) (getKey (convertRule ptype r))) rules) db)
    as (db' & Hdel & Hget).
  exists db'. split; [|done]. unfold RemovePolicies, db_Update. by rewrite Hrun, Hdel.
Qed.

(** X9.  With lists of equal length whose new rules all serialize and are
    accepted by the engine, UpdatePolicies returns nil and stores what
    updating the pairs one by one with UpdatePolicy stores. *)
Theorem UpdatePolicies_sequence a sec ptype oldRules newRules db :
  length oldRules = length newRules ->
  Forall (fun r => writable a (convertRule ptype r)) newRules ->
  UpdatePolicies a sec ptype oldRules newRules db
  = (Val tt,
     foldl (fun d pair => (UpdatePolicy a sec ptype pair.1 pair.2 d).2) db
       (zip oldRules newRules)).
Proof.
  intros Hlen Hall.
  assert (forall o n tx,
            writable a (convertRule ptype n) ->
            update_rule a ptype o n tx
            = (Val tt, (UpdatePolicy a sec ptype o n tx).2)) as Hstep.
  { intros o n tx (bts & Hm & Hok). unfold UpdatePolicy, db_Update, update_rule.
    destruct (bucket_Exist _ _ _); [|done].
    unfold bucket_Delete, put_rule, bucket_Put. by rewrite Hm, Hok. }
  assert (update_rules a ptype oldRules newRules db
          = (Val tt,
             foldl (fun d pair => (UpdatePolicy a sec ptype pair.1 pair.2 d).2) db
               (zip oldRules newRules))) as Hrun.
  { revert oldRules db Hlen.
    induction Hall as [|n newRules Hn _ IH]; intros [|o oldRules] db Hlen; try done.
    cbn [update_rules zip zip_with foldl]. rewrite (Hstep o n db Hn).
    cbn [fst snd]. apply IH. by injection Hlen. }
  unfold UpdatePolicies, db_Update.
  apply Nat.eqb_eq in Hlen as ->. cbn [negb]. by rewrite Hrun.
Qed.

End WriteProperties.

(** ** Filtered removal *)

Section RemovalProperties.
Context `{Externals}.

(** X10.  Whatever its arguments and its outcome, RemoveFilteredPolicy writes no
    record: every key holds afterwards what it held before, or nothing. *)
Theorem RemoveFilteredPolicy_only_deletes a sec ptype fieldIndex fieldValues db k :
  txn_Get k (RemoveFilteredPolicy a sec ptype fieldIndex fieldValues db).2 = txn_Get k db \/
  txn_Get k (RemoveFilteredPolicy a sec ptype fieldIndex fieldValues db).2 = None.
Proof.
  unfold RemoveFilteredPolicy. destruct fieldValues as [fvs|]; [|by left].
  destruct (collect_matched a ptype fieldIndex fvs db) as [[[]|e|v] matched];
    [|by left..].
  destruct (db_Update_delete_matched matched db) as (db' & -> & Hget).
  cbn [snd]. rewrite Hget. destruct (bool_decide (k ∈ matched)); [by right|by left].
Qed.

(** A removal moves no more records behind a seek position. *)
Lemma RemoveFilteredPolicy_window a sec ptype fieldIndex fieldValues prefix db :
  length (it_Seek prefix (RemoveFilteredPolicy a sec ptype fieldIndex fieldValues db).2)
  <= length (it_Seek prefix db).
Proof.
  unfold RemoveFilteredPolicy. destruct fieldValues as [fvs|]; [|done].
  destruct (collect_matched a ptype fieldIndex fvs db) as [[[]|e|v] matched]; [|done..].
  unfold db_Update. pose proof (it_Seek_delete_matched_length prefix matched db) as Hlen.
  destruct (delete_matched matched db) as [[[]|e|v] db']; done.
Qed.

(** A second removal that collects the keys of a prefix range that pass a
    test finds nothing left to delete. *)
Lemma RemoveFilteredPolicy_again a sec ptype fieldIndex fieldValues prefix test db :
  (forall d, keys_sorted d = true -> length (it_Seek prefix d) <= PrefetchSize ->
     collect_matched a ptype fieldIndex fieldValues d
     = (Val tt, List.filter test (records_with_prefix prefix d).*1)) ->
  keys_sorted db = true ->
  length (it_Seek prefix db) <= PrefetchSize ->
  RemoveFilteredPolicy a sec ptype fieldIndex (Some fieldValues)
    (RemoveFilteredPolicy a sec ptype fieldIndex (Some fieldValues) db).2
  = (Val tt, (RemoveFilteredPolicy a sec ptype fieldIndex (Some fieldValues) db).2).
Proof.
  intros Hcollect Hs Hw.
  pose proof (RemoveFilteredPolicy_sorted a sec ptype fieldIndex (Some fieldValues) db Hs)
    as Hs'.
  pose proof (RemoveFilteredPolicy_window a sec ptype fieldIndex (Some fieldValues) prefix db)
    as Hw'.
  destruct (RemoveFilteredPolicy_collected a sec ptype fieldIndex fieldValues db _
              (Hcollect db Hs Hw)) as (db' & Hrun & Hget).
  rewrite Hrun in *. cbn [snd] in *.
  assert (List.filter test (records_with_prefix prefix db').*1 = []) as Hnone.
  { destruct (List.filter test (records_with_prefix prefix db').*1) as [|k ks] eqn:Hf;
      [done|]. exfalso.
    assert (k ∈ List.filter test (records_with_prefix prefix db').*1) as Hin
      by (rewrite Hf; by left).
    apply list_elem_of_In, filter_In in Hin as [Hin Htest].
    apply list_elem_of_In, elem_of_records_with_prefix in Hin as [Hin Hp].
    apply txn_Get_elem_of in Hin as [v Hv]. rewrite Hget in Hv.
    case_bool_decide as Hm; [done|]. apply Hm.
    apply list_elem_of_In, filter_In. split; [|done].
    apply list_elem_of_In, elem_of_records_with_prefix. split; [|done].
    apply txn_Get_elem_of. by eexists. }
  unfold RemoveFilteredPolicy. rewrite (Hcollect db' Hs') by lia. by rewrite Hnone.
Qed.

(** X11.  On a store in key order that has at most PrefetchSize (100)
    records from the scan prefix to its end, removing by prefix
    (fieldIndex 0) a second time with the same arguments returns nil and
    changes nothing. *)
Theorem RemoveFilteredPolicy_prefix_idempotent a sec ptype fieldValues db :
  keys_sorted db = true ->
  length (it_Seek (withPrefix (namespace a) (getKey (convertRule ptype fieldValues))) db)
    <= PrefetchSize ->
  RemoveFilteredPolicy a sec ptype 0 (Some fieldValues)
    (RemoveFilteredPolicy a sec ptype 0 (Some fieldValues) db).2
  = (Val tt, (RemoveFilteredPolicy a sec ptype 0 (Some fieldValues) db).2).
Proof.
  apply (RemoveFilteredPolicy_again a sec ptype 0 fieldValues
           (withPrefix (namespace a) (getKey (convertRule ptype fieldValues)))
           (fun _ => true)).
  intros d Hd Hw. rewrite collect_matched_prefix by done. by rewrite filter_true.
Qed.

(** X12.  On a store in key order that has at most PrefetchSize (100)
    records from the scan prefix to its end, for 0 < fieldIndex < MaxInt and
    field values that are not empty, running the contains scan a second time
    with the same arguments returns nil and changes nothing. *)
Theorem RemoveFilteredPolicy_scan_idempotent a sec ptype fieldIndex fieldValue fieldValues db :
  keys_sorted db = true -> (0 < fieldIndex < int_max)%Z ->
  length (it_Seek (withPrefix (namespace a) ptype) db) <= PrefetchSize ->
  RemoveFilteredPolicy a sec ptype fieldIndex (Some (fieldValue :: fieldValues))
    (RemoveFilteredPolicy a sec ptype fieldIndex (Some (fieldValue :: fieldValues)) db).2
  = (Val tt,
     (RemoveFilteredPolicy a sec ptype fieldIndex (Some (fieldValue :: fieldValues)) db).2).
Proof.
  intros Hs Hi Hw.
  apply (RemoveFilteredPolicy_again a sec ptype fieldIndex (fieldValue :: fieldValues)
           (withPrefix (namespace a) ptype)
           (scan_match a fieldIndex fieldValue
              (strings_Join (fieldValue :: fieldValues) "::"))); [|done..].
  intros d Hd Hwd. by apply collect_matched_scan.
Qed.

End RemovalProperties.

(** ** Keys *)

(** X13.  The contains scan decodes a key by splitting it at "::": for a rule
    with clean components this gives back the rule. *)
Theorem getKey_Split ptype line :
  forallb field_clean (convertRule ptype line) = true ->
  strings_Split (getKey (convertRule ptype line)) "::" = convertRule ptype line.
Proof. intros Hc. unfold getKey, convertRule in *. simpl app in *. by apply Split_Join. Qed.

(** ** Loading: failures *)

Section LoadFailures.
Context `{Externals}.

(** X14.  A seed line that names a policy type for which the model has no
    assertion (or whose first token is empty) ends in a panic; the model is
    not changed. *)
Theorem loadCsvPolicyLine_no_assertion line key rest model :
  String.eqb line "" || strings_HasPrefix line "#" = false ->
  csv_Read line = Val (key :: rest) ->
  policy_of model key = None ->
  exists v, loadCsvPolicyLine line model = (Panic v, model).
Proof.
  intros Hkeep Hread Hnone. unfold loadCsvPolicyLine. rewrite Hkeep, Hread.
  unfold policy_of in Hnone.
  destruct (slice_to key 1) as [sec|]; [|by eexists]. cbn in Hnone.
  destruct (model !! sec) as [assertions|]; [|by eexists]. cbn in Hnone.
  destruct (assertions !! key) as [assertion|]; [done|by eexists].
Qed.

(** The seed phase up to a line the CSV reader rejects: the lines before it
    are loaded, the error is returned. *)
Lemma load_lines_error lines : forall model good seed bad rest e,
  List.filter (fun line => negb (String.eqb line "" || strings_HasPrefix line "#"))
    (map strings_TrimSpace lines) = good ++ bad :: rest ->
  Forall2 (fun line tokens => csv_Read line = Val tokens) good seed ->
  csv_Read bad = Err e ->
  Forall (loadable model) seed ->
  exists model', load_lines lines model = (Err e, model') /\ extends_by model model' seed.
Proof.
  induction lines as [|line lines IH]; intros model good seed bad rest e Hf Hgood Hbad Hload;
    cbn [load_lines map List.filter] in *.
  - by destruct good.
  - destruct (String.eqb (strings_TrimSpace line) "" ||
              strings_HasPrefix (strings_TrimSpace line) "#") eqn:Hskip; cbn [negb] in Hf.
    + rewrite loadCsvPolicyLine_skip by done. by apply (IH model good seed bad rest e).
    + destruct good as [|g good].
      * injection Hf as <- Hf. apply Forall2_nil_inv_l in Hgood as ->.
        unfold loadCsvPolicyLine. rewrite Hskip, Hbad.
        exists model. split; [done|]. apply extends_by_nil.
      * injection Hf as <- Hf.
        apply Forall2_cons_inv_l in Hgood as (tokens & seed' & Htok & Hgood & ->).
        apply Forall_cons in Hload as [Hl Hload].
        destruct (loadCsvPolicyLine_tokens _ _ _ Hskip Htok Hl) as (model1 & -> & Hext1).
        destruct (IH model1 good seed' bad rest e Hf Hgood Hbad) as (model' & -> & Hext).
        { eapply Forall_impl; [exact Hload|]. intros t.
          by apply (extends_by_loadable _ _ _ _ Hext1). }
        exists model'. split; [done|].
        exact (extends_by_trans model model1 model' [tokens] seed' Hext1 Hext).
Qed.

(** X15.  When the CSV reader rejects a line of the seed policy, LoadPolicy
    returns that error without reading the bucket; the rules of the lines
    before it have been appended to the model and stay there. *)
Theorem LoadPolicy_seed_error a model db good seed bad rest e :
  seed_lines a = good ++ bad :: rest ->
  Forall2 (fun line tokens => csv_Read line = Val tokens) good seed ->
  csv_Read bad = Err e ->
  Forall (loadable model) seed ->
  exists model',
    LoadPolicy a model db = (Err e, model') /\
    forall key pol,
      policy_of model key = Some pol ->
      policy_of model' key = Some (pol ++ rules_of key seed).
Proof.
  intros Hlines Hgood Hbad Hload. unfold seed_lines in Hlines. unfold LoadPolicy.
  destruct (String.eqb (builtinPolicy a) ""); [by destruct good|]. cbn [negb].
  destruct (load_lines_error _ model good seed bad rest e Hlines Hgood Hbad Hload)
    as (model' & -> & Hext).
  by exists model'.
Qed.



End LoadFailures.

(** * The adapter at work on concrete stores *)

#[local] Existing Instance sample.

(** C1, counterexample.  The store holds the rule p, subj-ab, data1, read,
    whose first field is not subj-a; RemoveFilteredPolicy(sec, "p", 0,
    "subj-a") removes it all the same, because its key starts with
    "p::subj-a". *)
Lemma RemoveFilteredPolicy_prefix_overmatch :
  txn_Get (withPrefix "rules" (getKey (convertRule "p" ["subj-ab"; "data1"; "read"])))
    store_subjects = Some "p,subj-ab,data1,read" /\
  leading_fields ["subj-a"] ["subj-ab"; "data1"; "read"] = false /\
  exists db',
    RemoveFilteredPolicy sample_adapter "p" "p" 0 (Some ["subj-a"]) store_subjects
    = (Val tt, db') /\
    txn_Get (withPrefix "rules" (getKey (convertRule "p" ["subj-ab"; "data1"; "read"]))) db'
    = None.
Proof.
  split; [reflexivity|]. split; [reflexivity|].
  eexists. split; [vm_compute; reflexivity|]. reflexivity.
Qed.

(** The prefix removal on the three-rule store, for the filter subj-b. *)
Lemma RemoveFilteredPolicy_prefix_witness :
  keys_sorted store_subjects = true /\
  length (it_Seek (withPrefix "rules" (getKey (convertRule "p" ["subj-b"]))) store_subjects)
    <= PrefetchSize /\
  exists db',
    RemoveFilteredPolicy sample_adapter "p" "p" 0 (Some ["subj-b"]) store_subjects
    = (Val tt, db') /\
    (forall k,
       txn_Get k db' =
       if strings_HasPrefix k (withPrefix "rules" (getKey (convertRule "p" ["subj-b"])))
       then None else txn_Get k store_subjects) /\
    (forall rest,
       txn_Get (withPrefix "rules" (getKey (convertRule "p" (["subj-b"] ++ rest)))) db'
       = None).
Proof.
  split; [reflexivity|]. split; [vm_compute; lia|].
  apply (RemoveFilteredPolicy_prefix sample_adapter "p" "p" ["subj-b"] store_subjects).
  - reflexivity.
  - vm_compute; lia.
Defined.

(** Beyond the prefetch window.  The store holds the rules p, u000 to
    p, u100, and the rule of u000 alone passes the filter.  The slice kept
    for its key shows the key of u100 by the time the write phase reads it:
    the rule of u000 stays and the rule of u100 is deleted.  With the
    hundred rules up to u099 the rule of u000 is deleted.  With the filter
    u, which all 101 rules pass, the rule of u000 is the one that stays. *)
Example RemoveFilteredPolicy_prefix_beyond_window :
  collect_matched sample_adapter "p" 0 ["u000"] (store_users 101)
  = (Val tt, [withPrefix "rules" (getKey (convertRule "p" ["u100"]))]) /\
  RemoveFilteredPolicy sample_adapter "p" "p" 0 (Some ["u000"]) (store_users 101)
  = (Val tt, store_users 100) /\
  RemoveFilteredPolicy sample_adapter "p" "p" 0 (Some ["u000"]) (store_users 100)
  = (Val tt, txn_Delete (withPrefix "rules" (getKey (convertRule "p" ["u000"])))
               (store_users 100)) /\
  RemoveFilteredPolicy sample_adapter "p" "p" 0 (Some ["u"]) (store_users 101)
  = (Val tt, store_users 1).
Proof. repeat split; vm_compute; reflexivity. Qed.

(** C2, counterexample.  The store holds the rule p2, alice, data1 of the
    policy type p2; RemoveFilteredPolicy(sec, "p", 1, "data1") deletes it,
    because the scan runs over every key that starts with "p". *)
Lemma RemoveFilteredPolicy_scan_other_ptype :
  txn_Get (withPrefix "rules" (getKey (convertRule "p2" ["alice"; "data1"])))
    store_two_types = Some "p2,alice,data1" /\
  String.eqb "p2" "p" = false /\
  exists db',
    RemoveFilteredPolicy sample_adapter "p" "p" 1 (Some ["data1"]) store_two_types
    = (Val tt, db') /\
    txn_Get (withPrefix "rules" (getKey (convertRule "p2" ["alice"; "data1"]))) db' = None.
Proof.
  split; [reflexivity|]. split; [reflexivity|].
  eexists. split; [vm_compute; reflexivity|]. reflexivity.
Qed.

(** The contains scan on the store with two policy types, for data1 at
    position 1. *)
Lemma RemoveFilteredPolicy_scan_witness :
  keys_sorted store_two_types = true /\
  (0 < 1 < int_max)%Z /\
  length (it_Seek (withPrefix "rules" "p") store_two_types) <= PrefetchSize /\
  exists db',
    RemoveFilteredPolicy sample_adapter "p" "p" 1 (Some ["data1"]) store_two_types
    = (Val tt, db') /\
    (forall k,
       strings_HasPrefix k (withPrefix "rules" "p") = false ->
       txn_Get k db' = txn_Get k store_two_types) /\
    (forall line,
       forallb field_clean (ptype_component "rules" "p" :: line) = true ->
       txn_Get (withPrefix "rules" (getKey (convertRule "p" line))) db' =
       if bool_decide (line !! Z.to_nat 1 = Some "data1") &&
          strings_Contains (withPrefix "rules" (getKey (convertRule "p" line)))
            (strings_Join ["data1"] "::")
       then None
       else txn_Get (withPrefix "rules" (getKey (convertRule "p" line))) store_two_types).
Proof.
  split; [reflexivity|]. split; [unfold int_max; lia|]. split; [vm_compute; lia|].
  apply (RemoveFilteredPolicy_scan sample_adapter "p" "p" 1 "data1" [] store_two_types).
  - reflexivity.
  - unfold int_max; lia.
  - vm_compute; lia.
Defined.

(** Beyond the prefetch window.  Of the rules p, u000, write and
    p, u<i>, read. for 0 < i <= 100 the contains scan for write at
    position 1 matches the first alone; the rule it deletes is the one of
    u100, and the matching rule stays. *)
Example RemoveFilteredPolicy_scan_beyond_window :
  collect_matched sample_adapter "p" 1 ["write"] (store_actions 101)
  = (Val tt, [withPrefix "rules" (getKey (convertRule "p" ["u100"; "read."]))]) /\
  RemoveFilteredPolicy sample_adapter "p" "p" 1 (Some ["write"]) (store_actions 101)
  = (Val tt, store_actions 100).
Proof. repeat split; vm_compute; reflexivity. Qed.

(** The contains scan reads the components off the key: a rule whose first
    field holds the separator is deleted for a value that is none of its
    fields at position 1. *)
Example RemoveFilteredPolicy_scan_shifted_field :
  ["a::b"; "c"] !! 1 = Some "c" /\
  RemoveFilteredPolicy sample_adapter "p" "p" 1 (Some ["b"]) store_separator = (Val tt, []).
Proof. split; [reflexivity|]. vm_compute. reflexivity. Qed.

(** At fieldIndex MaxInt the sum fieldIndex+1 wraps around to MinInt, the
    bound check passes and the index expression panics. *)
Example RemoveFilteredPolicy_scan_max_index :
  RemoveFilteredPolicy sample_adapter "p" "p" int_max (Some ["data1"]) store_two_types
  = (Panic "index out of range", store_two_types).
Proof. vm_compute. reflexivity. Qed.

(** C3, counterexample.  Two distinct rules, none of whose components holds
    the separator, with one and the same storage key. *)
Lemma getKey_collision :
  convertRule "p" ["a:"; "b"] <> convertRule "p" ["a"; ":b"] /\
  forallb (fun f => negb (strings_Contains f "::")) (convertRule "p" ["a:"; "b"]) = true /\
  forallb (fun f => negb (strings_Contains f "::")) (convertRule "p" ["a"; ":b"]) = true /\
  getKey (convertRule "p" ["a:"; "b"]) = getKey (convertRule "p" ["a"; ":b"]).
Proof. split; [discriminate|]. repeat split; reflexivity. Qed.

(** A field that holds the separator is read as two fields. *)
Example getKey_collision_separator :
  getKey (convertRule "p" ["a::b"]) = getKey (convertRule "p" ["a"; "b"]).
Proof. reflexivity. Qed.

(** Two rules with clean components that differ in their last field. *)
Lemma getKey_injective_witness :
  forallb field_clean (convertRule "p" ["alice"; "data1"; "read"]) = true /\
  forallb field_clean (convertRule "p" ["alice"; "data1"; "write"]) = true /\
  convertRule "p" ["alice"; "data1"; "read"] <> convertRule "p" ["alice"; "data1"; "write"] /\
  getKey (convertRule "p" ["alice"; "data1"; "read"])
  <> getKey (convertRule "p" ["alice"; "data1"; "write"]).
Proof.
  split; [reflexivity|]. split; [reflexivity|]. split; [discriminate|].
  apply (getKey_injective "p" ["alice"; "data1"; "read"] "p" ["alice"; "data1"; "write"]).
  - reflexivity.
  - reflexivity.
  - discriminate.
Defined.

(** C4, counterexample.  On a store with two rules UpdateFilteredPolicies
    panics: what it yields is no error value. *)
Lemma UpdateFilteredPolicies_sample_panics :
  UpdateFilteredPolicies sample_adapter "p" "p" [["alice"; "data1"; "write"]] 0
    (Some ["alice"]) store_scenario = (Panic "implement", store_scenario) /\
  (forall e : error, @Panic (list (list string)) "implement" <> Err e).
Proof. split; [reflexivity|]. intros e. discriminate. Qed.

(** The scenarios of the specification for the prefix removal and the
    contains scan. *)
Example RemoveFilteredPolicy_prefix_scenario :
  RemoveFilteredPolicy sample_adapter "p" "p" 0 (Some ["alice"]) store_scenario
  = (Val tt, store_of "p" [["bob"; "data2"; "write"]]).
Proof. vm_compute. reflexivity. Qed.

Example RemoveFilteredPolicy_scan_scenario :
  RemoveFilteredPolicy sample_adapter "p" "p" 1 (Some ["data2"]) store_scenario
  = (Val tt, store_of "p" [["alice"; "data1"; "read"]]).
Proof. vm_compute. reflexivity. Qed.

(** C5, the failing input.  With field values that are empty but not nil
    the call is not rejected: at fieldIndex 0 it returns nil and deletes
    every record whose key starts with the policy type. *)
Theorem RemoveFilteredPolicy_empty_not_nil :
  RemoveFilteredPolicy sample_adapter "p" "p" 0 (Some []) store_scenario = (Val tt, []) /\
  txn_Get (withPrefix "rules" (getKey (convertRule "p" ["alice"; "data1"; "read"])))
    store_scenario = Some "p,alice,data1,read".
Proof. split; [vm_compute; reflexivity|reflexivity]. Qed.

(** With a positive fieldIndex the same field values end in a panic at
    [fieldValues[0]]. *)
Example RemoveFilteredPolicy_empty_not_nil_scan :
  RemoveFilteredPolicy sample_adapter "p" "p" 1 (Some []) store_scenario
  = (Panic "index out of range", store_scenario).
Proof. vm_compute. reflexivity. Qed.

(** fieldIndex -1 on the scenario store. *)
Lemma RemoveFilteredPolicy_negative_index_witness :
  (-1 < 0)%Z /\
  collect_matched sample_adapter "p" (-1) ["alice"] store_scenario = (Val tt, []) /\
  RemoveFilteredPolicy sample_adapter "p" "p" (-1) (Some ["alice"]) store_scenario
  = (Val tt, store_scenario).
Proof.
  split; [lia|].
  apply (RemoveFilteredPolicy_negative_index sample_adapter "p" "p" (-1) ["alice"]
           store_scenario).
  lia.
Defined.

(** Two old rules against one new rule. *)
Lemma UpdatePolicies_length_mismatch_witness :
  length [["alice"; "data1"; "read"]; ["bob"; "data2"; "write"]]
  <> length [["alice"; "data1"; "write"]] /\
  UpdatePolicies sample_adapter "p" "p"
    [["alice"; "data1"; "read"]; ["bob"; "data2"; "write"]]
    [["alice"; "data1"; "write"]] store_scenario
  = (Err InvalidRulesLen, store_scenario).
Proof.
  split; [simpl; lia|].
  apply (UpdatePolicies_length_mismatch sample_adapter "p" "p"
           [["alice"; "data1"; "read"]; ["bob"; "data2"; "write"]]
           [["alice"; "data1"; "write"]] store_scenario).
  simpl; lia.
Defined.

(** The scenario of the specification, with a rule the store does not hold. *)
Lemma UpdatePolicy_absent_witness :
  txn_Get (withPrefix "rules" (getKey (convertRule "p" ["carol"; "data1"; "read"])))
    store_scenario = None /\
  UpdatePolicy sample_adapter "p" "p" ["carol"; "data1"; "read"] ["carol"; "data1"; "write"]
    store_scenario = (Val tt, store_scenario) /\
  txn_Get (withPrefix "rules" (getKey (convertRule "p" ["carol"; "data1"; "write"])))
    (UpdatePolicy sample_adapter "p" "p" ["carol"; "data1"; "read"]
       ["carol"; "data1"; "write"] store_scenario).2
  = txn_Get (withPrefix "rules" (getKey (convertRule "p" ["carol"; "data1"; "write"])))
      store_scenario.
Proof.
  split; [reflexivity|].
  apply (UpdatePolicy_absent sample_adapter "p" "p" ["carol"; "data1"; "read"]
           ["carol"; "data1"; "write"] store_scenario).
  reflexivity.
Defined.

(** When the old rule is present, UpdatePolicy replaces it. *)
Example UpdatePolicy_present :
  UpdatePolicy sample_adapter "p" "p" ["alice"; "data1"; "read"] ["alice"; "data1"; "write"]
    store_scenario
  = (Val tt, store_of "p" [["alice"; "data1"; "write"]; ["bob"; "data2"; "write"]]).
Proof. vm_compute. reflexivity. Qed.



(** The scenario in full, with a loader that appends as loadCsvPolicyLine
    does: the rule p, alice, data1, read of the seed policy is stored in the
    bucket as well, and the model holds it twice. *)
Example LoadPolicy_keeps_duplicates :
  policy_of (LoadPolicy seeded_adapter empty_model store_scenario).2 "p"
  = Some [["alice"; "data1"; "read"]; ["carol"; "data3"; "read"];
          ["alice"; "data1"; "read"]; ["bob"; "data2"; "write"]].
Proof. vm_compute. reflexivity. Qed.

(** * The further properties on concrete stores *)

(** A rule is added to the scenario store. *)
Lemma AddPolicy_stores_witness :
  json_Marshal (convertRule "p" ["carol"; "data3"; "read"]) = Val "p,carol,data3,read" /\
  txn_Set_refused (withPrefix "rules" (getKey (convertRule "p" ["carol"; "data3"; "read"])))
    "p,carol,data3,read" = None /\
  exists db',
    AddPolicy sample_adapter "p" "p" ["carol"; "data3"; "read"] store_scenario
    = (Val tt, db') /\
    forall k,
      txn_Get k db' =
      if String.eqb (withPrefix "rules" (getKey (convertRule "p" ["carol"; "data3"; "read"]))) k
      then Some "p,carol,data3,read" else txn_Get k store_scenario.
Proof.
  split; [reflexivity|]. split; [reflexivity|].
  apply (AddPolicy_stores sample_adapter "p" "p" ["carol"; "data3"; "read"] store_scenario
           "p,carol,data3,read").
  - reflexivity.
  - reflexivity.
Defined.

(** A write the engine refuses.  The field of 65000 bytes serializes, but
    the key of the rule is longer than the engine takes: AddPolicy returns
    the engine's error and the store is as it was. *)
Example AddPolicy_key_refused :
  AddPolicy sample_adapter "p" "p" [filler (N.to_nat 65000)] store_scenario
  = (Err (errors_New "Key exceeded 65000 limit"), store_scenario).
Proof. vm_compute. reflexivity. Qed.

(** A rule the scenario store does not hold is removed. *)
Lemma RemovePolicy_absent_witness :
  txn_Get (withPrefix "rules" (getKey (convertRule "p" ["carol"; "data3"; "read"])))
    store_scenario = None /\
  RemovePolicy sample_adapter "p" "p" ["carol"; "data3"; "read"] store_scenario
  = (Val tt, store_scenario).
Proof.
  split; [reflexivity|].
  apply (RemovePolicy_absent sample_adapter "p" "p" ["carol"; "data3"; "read"]
           store_scenario).
  reflexivity.
Defined.

(** A new rule is added to the scenario store and removed again. *)
Lemma AddPolicy_RemovePolicy_witness :
  txn_Get (withPrefix "rules" (getKey (convertRule "p" ["carol"; "data3"; "read"])))
    store_scenario = None /\
  RemovePolicy sample_adapter "p" "p" ["carol"; "data3"; "read"]
    (AddPolicy sample_adapter "p" "p" ["carol"; "data3"; "read"] store_scenario).2
  = (Val tt, store_scenario).
Proof.
  split; [reflexivity|].
  apply (AddPolicy_RemovePolicy sample_adapter "p" "p" ["carol"; "data3"; "read"]
           store_scenario).
  reflexivity.
Defined.

(** The rule of alice in the scenario store is updated. *)
Lemma UpdatePolicy_replaces_witness :
  txn_Get (withPrefix "rules" (getKey (convertRule "p" ["alice"; "data1"; "read"])))
    store_scenario = Some "p,alice,data1,read" /\
  json_Marshal (convertRule "p" ["alice"; "data1"; "write"]) = Val "p,alice,data1,write" /\
  txn_Set_refused (withPrefix "rules" (getKey (convertRule "p" ["alice"; "data1"; "write"])))
    "p,alice,data1,write" = None /\
  exists db',
    UpdatePolicy sample_adapter "p" "p" ["alice"; "data1"; "read"] ["alice"; "data1"; "write"]
      store_scenario = (Val tt, db') /\
    forall k,
      txn_Get k db' =
      if String.eqb (withPrefix "rules" (getKey (convertRule "p" ["alice"; "data1"; "write"]))) k
      then Some "p,alice,data1,write"
      else if String.eqb
                (withPrefix "rules" (getKey (convertRule "p" ["alice"; "data1"; "read"]))) k
           then None else txn_Get k store_scenario.
Proof.
  split; [reflexivity|]. split; [reflexivity|]. split; [reflexivity|].
  apply (UpdatePolicy_replaces sample_adapter "p" "p" ["alice"; "data1"; "read"]
           ["alice"; "data1"; "write"] store_scenario "p,alice,data1,read"
           "p,alice,data1,write").
  - reflexivity.
  - reflexivity.
  - reflexivity.
Defined.

(** Two rules are added to the scenario store in one call. *)
Lemma AddPolicies_sequence_witness :
  Forall (fun r => writable sample_adapter (convertRule "p" r))
    [["carol"; "data3"; "read"]; ["dave"; "data4"; "write"]] /\
  AddPolicies sample_adapter "p" "p"
    [["carol"; "data3"; "read"]; ["dave"; "data4"; "write"]] store_scenario
  = (Val tt,
     foldl (fun d r => (AddPolicy sample_adapter "p" "p" r d).2) store_scenario
       [["carol"; "data3"; "read"]; ["dave"; "data4"; "write"]]).
Proof.
  assert (Forall (fun r => writable sample_adapter (convertRule "p" r))
            [["carol"; "data3"; "read"]; ["dave"; "data4"; "write"]]) as Hall
    by (repeat (constructor; [eexists; split; reflexivity|]); constructor).
  split; [exact Hall|].
  exact (AddPolicies_sequence sample_adapter "p" "p" _ store_scenario Hall).
Defined.

(** Both rules of the scenario store are updated in one call. *)
Lemma UpdatePolicies_sequence_witness :
  length [["alice"; "data1"; "read"]; ["bob"; "data2"; "write"]]
  = length [["alice"; "data1"; "write"]; ["bob"; "data2"; "read"]] /\
  Forall (fun r => writable sample_adapter (convertRule "p" r))
    [["alice"; "data1"; "write"]; ["bob"; "data2"; "read"]] /\
  UpdatePolicies sample_adapter "p" "p"
    [["alice"; "data1"; "read"]; ["bob"; "data2"; "write"]]
    [["alice"; "data1"; "write"]; ["bob"; "data2"; "read"]] store_scenario
  = (Val tt,
     foldl (fun d pair => (UpdatePolicy sample_adapter "p" "p" pair.1 pair.2 d).2)
       store_scenario
       (zip [["alice"; "data1"; "read"]; ["bob"; "data2"; "write"]]
            [["alice"; "data1"; "write"]; ["bob"; "data2"; "read"]])).
Proof.
  assert (Forall (fun r => writable sample_adapter (convertRule "p" r))
            [["alice"; "data1"; "write"]; ["bob"; "data2"; "read"]]) as Hall
    by (repeat (constructor; [eexists; split; reflexivity|]); constructor).
  split; [reflexivity|]. split; [exact Hall|].
  exact (UpdatePolicies_sequence sample_adapter "p" "p"
           [["alice"; "data1"; "read"]; ["bob"; "data2"; "write"]]
           [["alice"; "data1"; "write"]; ["bob"; "data2"; "read"]] store_scenario eq_refl Hall).
Defined.

(** The prefix removal for subj-a, twice, on the three-rule store. *)
Lemma RemoveFilteredPolicy_prefix_idempotent_witness :
  keys_sorted store_subjects = true /\
  length (it_Seek (withPrefix "rules" (getKey (convertRule "p" ["subj-a"]))) store_subjects)
    <= PrefetchSize /\
  RemoveFilteredPolicy sample_adapter "p" "p" 0 (Some ["subj-a"])
    (RemoveFilteredPolicy sample_adapter "p" "p" 0 (Some ["subj-a"]) store_subjects).2
  = (Val tt,
     (RemoveFilteredPolicy sample_adapter "p" "p" 0 (Some ["subj-a"]) store_subjects).2).
Proof.
  split; [reflexivity|]. split; [vm_compute; lia|].
  apply (RemoveFilteredPolicy_prefix_idempotent sample_adapter "p" "p" ["subj-a"]
           store_subjects).
  - reflexivity.
  - vm_compute; lia.
Defined.

(** Beyond the prefetch window a second call is not idle: on the rules of
    u000 to u100 the first removal of u000 deletes the rule of u100, the
    second the rule of u000. *)
Example RemoveFilteredPolicy_prefix_twice_beyond_window :
  RemoveFilteredPolicy sample_adapter "p" "p" 0 (Some ["u000"])
    (RemoveFilteredPolicy sample_adapter "p" "p" 0 (Some ["u000"]) (store_users 101)).2
  = (Val tt, txn_Delete (withPrefix "rules" (getKey (convertRule "p" ["u000"])))
               (store_users 100)).
Proof. vm_compute. reflexivity. Qed.

(** The contains scan for data1 at position 1, twice. *)
Lemma RemoveFilteredPolicy_scan_idempotent_witness :
  keys_sorted store_two_types = true /\
  (0 < 1 < int_max)%Z /\
  length (it_Seek (withPrefix "rules" "p") store_two_types) <= PrefetchSize /\
  RemoveFilteredPolicy sample_adapter "p" "p" 1 (Some ["data1"])
    (RemoveFilteredPolicy sample_adapter "p" "p" 1 (Some ["data1"]) store_two_types).2
  = (Val tt,
     (RemoveFilteredPolicy sample_adapter "p" "p" 1 (Some ["data1"]) store_two_types).2).
Proof.
  split; [reflexivity|]. split; [unfold int_max; lia|]. split; [vm_compute; lia|].
  apply (RemoveFilteredPolicy_scan_idempotent sample_adapter "p" "p" 1 "data1" []
           store_two_types).
  - reflexivity.
  - unfold int_max; lia.
  - vm_compute; lia.
Defined.

(** The key of a rule with clean components is split. *)
Lemma getKey_Split_witness :
  forallb field_clean (convertRule "p" ["alice"; "data1"; "read"]) = true /\
  strings_Split (getKey (convertRule "p" ["alice"; "data1"; "read"])) "::"
  = convertRule "p" ["alice"; "data1"; "read"].
Proof.
  split; [reflexivity|].
  apply (getKey_Split "p" ["alice"; "data1"; "read"]). reflexivity.
Defined.

(** A grouping rule is loaded into a model that knows the policy type p
    only. *)
Lemma loadCsvPolicyLine_no_assertion_witness :
  String.eqb "g, alice, admin" "" || strings_HasPrefix "g, alice, admin" "#" = false /\
  csv_Read "g, alice, admin" = Val ["g"; "alice"; "admin"] /\
  policy_of empty_model "g" = None /\
  exists v, loadCsvPolicyLine "g, alice, admin" empty_model = (Panic v, empty_model).
Proof.
  split; [reflexivity|]. split; [reflexivity|]. split; [reflexivity|].
  apply (loadCsvPolicyLine_no_assertion "g, alice, admin" "g" ["alice"; "admin"] empty_model).
  - reflexivity.
  - reflexivity.
  - reflexivity.
Defined.

(** The second line of the seed policy holds a double quote. *)
Lemma LoadPolicy_seed_error_witness :
  @seed_lines strict broken_seed_adapter
  = ["p, alice, data1, read"] ++
    ("p, bob, " +:+ double_quote +:+ "data2, write") :: ["p, carol, data3, read"] /\
  Forall2 (fun line tokens => @csv_Read strict line = Val tokens)
    ["p, alice, data1, read"] [["p"; "alice"; "data1"; "read"]] /\
  @csv_Read strict ("p, bob, " +:+ double_quote +:+ "data2, write")
  = Err (errors_New "bare quote in field") /\
  Forall (loadable empty_model) [["p"; "alice"; "data1"; "read"]] /\
  exists model',
    @LoadPolicy strict broken_seed_adapter empty_model store_scenario
    = (Err (errors_New "bare quote in field"), model') /\
    forall key pol,
      policy_of empty_model key = Some pol ->
      policy_of model' key = Some (pol ++ rules_of key [["p"; "alice"; "data1"; "read"]]).
Proof.
  assert (Forall2 (fun line tokens => @csv_Read strict line = Val tokens)
            ["p, alice, data1, read"] [["p"; "alice"; "data1"; "read"]]) as Hgood
    by (constructor; [reflexivity|constructor]).
  assert (Forall (loadable empty_model) [["p"; "alice"; "data1"; "read"]]) as Hload
    by (constructor; [by exists []|constructor]).
  split; [reflexivity|]. split; [exact Hgood|]. split; [reflexivity|]. split; [exact Hload|].
  exact (@LoadPolicy_seed_error strict broken_seed_adapter empty_model store_scenario
           ["p, alice, data1, read"] [["p"; "alice"; "data1"; "read"]]
           ("p, bob, " +:+ double_quote +:+ "data2, write") ["p, carol, data3, read"]
           (errors_New "bare quote in field") eq_refl Hgood eq_refl Hload).
Defined.


(** What the run of the decoding error leaves and returns. *)
Example LoadPolicy_decode_error_scenario :
  policy_of (@LoadPolicy strict sample_adapter empty_model store_broken_value).2 "p"
  = Some [["alice"; "data1"; "read"]; ["bob"; "data2"; "write"]] /\
  (@LoadPolicy strict sample_adapter empty_model store_broken_value).1
  = Err (errors_New "unexpected end of JSON input").
Proof. split; vm_compute; reflexivity. Qed.
